(** * A shallow embedding of the prompt relay server

    The server (an Express application) forwards prompts to the Groq
    completion API, keeps a file-backed history of request/reply records and
    replays a finished reply as a simulated server-sent-event stream.

    Conventions of the embedding:
    - a JavaScript string is the list of its UTF-16 code units;
    - handlers are written in a small state-and-exception monad [M] over the
      server state; what a handler does to its [res] object is recorded, in
      order, as a list of [Action]s;
    - everything the process cannot decide by itself (the answer of the
      upstream API, whether a disk write fails, the wall clock, the result of
      the runtime's URL parser) is read from an environment [Env];
    - the history file is represented by the JSON document it holds;
    - a handler runs from its first statement to its last without another
      request in between ([serve] takes the requests one after the other),
      and the state the process starts in, whatever the history file held at
      startup, is an arbitrary [State].

    The browser scripts of the repository (chat history in local storage,
    speech synthesis) are not part of the embedding. *)

From Stdlib Require Import List ZArith NArith Lia Bool String Ascii QArith_base.
From Equations Require Import Equations.
Import ListNotations.
Close Scope Q_scope.

Set Implicit Arguments.
Set Warnings "-register-all".

(* ===================================================================== *)
(** * JavaScript strings and values *)
(* ===================================================================== *)

Module Js.

(** A UTF-16 code unit. *)
Definition char16 := N.

Definition jsstring := list char16.

(** An ASCII literal of the source as a JavaScript string. *)
Definition lit (s : string) : jsstring :=
  map N_of_ascii (list_ascii_of_string s).

(** The line feed written [\n] in the source. *)
Definition LF : jsstring := [10%N].

(** [!s] for a string [s]: only the empty string is falsy. *)
Definition is_empty (s : jsstring) : bool :=
  match s with
  | [] => true
  | _ :: _ => false
  end.

(** [s.slice(a, b)] for non-negative [a] and [b]. *)
Definition slice (s : jsstring) (a b : nat) : jsstring :=
  firstn (b - a) (skipn a s).

Fixpoint starts_with (needle hay : jsstring) : bool :=
  match needle, hay with
  | [], _ => true
  | _ :: _, [] => false
  | c :: needle', d :: hay' => N.eqb c d && starts_with needle' hay'
  end.

(** [hay.includes(needle)]. *)
Fixpoint includes (needle hay : jsstring) : bool :=
  starts_with needle hay ||
  match hay with
  | [] => false
  | _ :: hay' => includes needle hay'
  end.

Fixpoint eqb (s t : jsstring) : bool :=
  match s, t with
  | [], [] => true
  | c :: s', d :: t' => N.eqb c d && eqb s' t'
  | _, _ => false
  end.

(** The JSON-like values the server builds: history records and response
    bodies.  Numbers are the integers the code produces. *)
Inductive JsValue :=
| JNull
| JBool (b : bool)
| JNum (n : Z)
| JStr (s : jsstring)
| JArr (items : list JsValue)
| JObj (fields : list (string * JsValue)).

(** Property lookup [o.k]: [None] stands for [undefined]. *)
Fixpoint lookup (k : string) (fields : list (string * JsValue)) : option JsValue :=
  match fields with
  | [] => None
  | (k', v) :: rest => if String.eqb k k' then Some v else lookup k rest
  end.

Definition get (k : string) (v : JsValue) : option JsValue :=
  match v with
  | JObj fields => lookup k fields
  | _ => None
  end.

End Js.
Import Js.

(* ===================================================================== *)
(** * The runtime's [Date.prototype.toISOString] *)
(* ===================================================================== *)

Module IsoDate.

(** Model of the ECMAScript runtime function (it is not code of the
    server): the proleptic Gregorian date of a day number counted from
    1970-01-01, by the usual era/day-of-era computation. *)
Definition civil_from_days (days : Z) : Z * Z * Z :=
  let z := (days + 719468)%Z in
  let era := (z / 146097)%Z in
  let doe := (z - era * 146097)%Z in
  let yoe := ((doe - doe / 1460 + doe / 36524 - doe / 146096) / 365)%Z in
  let doy := (doe - (365 * yoe + yoe / 4 - yoe / 100))%Z in
  let mp := ((5 * doy + 2) / 153)%Z in
  let d := (doy - (153 * mp + 2) / 5 + 1)%Z in
  let m := (if mp <? 10 then mp + 3 else mp - 9)%Z in
  let y := (yoe + era * 400 + (if m <=? 2 then 1 else 0))%Z in
  (y, m, d).

(** The decimal digit of weight [10^k] of [n], as a code unit. *)
Definition digit (k : nat) (n : Z) : char16 :=
  Z.to_N (48 + (n / 10 ^ Z.of_nat k) mod 10).

Definition pad2 (n : Z) : jsstring := [digit 1 n; digit 0 n].
Definition pad3 (n : Z) : jsstring := [digit 2 n; digit 1 n; digit 0 n].
Definition pad4 (n : Z) : jsstring := [digit 3 n; digit 2 n; digit 1 n; digit 0 n].
Definition pad6 (n : Z) : jsstring :=
  [digit 5 n; digit 4 n; digit 3 n; digit 2 n; digit 1 n; digit 0 n].

(** Years 0 to 9999 print with four digits, the others as a sign and six
    digits. *)
Definition year_string (y : Z) : jsstring :=
  if ((0 <=? y) && (y <=? 9999))%Z then pad4 y
  else (if (y <? 0)%Z then lit "-" else lit "+") ++ pad6 (Z.abs y).

(** [new Date(t).toISOString()] for a time value [t] in milliseconds. *)
Definition toISOString (t : Z) : jsstring :=
  let '(y, m, d) := civil_from_days (t / 86400000) in
  let ms := (t mod 86400000)%Z in
  year_string y ++ lit "-" ++ pad2 m ++ lit "-" ++ pad2 d ++ lit "T"
    ++ pad2 (ms / 3600000) ++ lit ":" ++ pad2 (ms / 60000 mod 60) ++ lit ":"
    ++ pad2 (ms / 1000 mod 60) ++ lit "." ++ pad3 (ms mod 1000) ++ lit "Z".

(** The shape of an ISO-8601 date-time, as a pattern over code units. *)
Inductive Pat := D | C (c : ascii).

Definition is_digit (c : char16) : bool := (48 <=? c)%N && (c <=? 57)%N.

Fixpoint matches (p : list Pat) (s : jsstring) : bool :=
  match p, s with
  | [], [] => true
  | D :: p', c :: s' => is_digit c && matches p' s'
  | C a :: p', c :: s' => N.eqb (N_of_ascii a) c && matches p' s'
  | _, _ => false
  end.

Definition time_pat : list Pat :=
  [C "-"; D; D; C "-"; D; D; C "T"; D; D; C ":"; D; D; C ":"; D; D; C "."; D; D; D; C "Z"]%char.

(** [YYYY-MM-DDTHH:mm:ss.sssZ], or the expanded [(+|-)YYYYYY-...] form. *)
Definition iso8601 (s : jsstring) : bool :=
  matches ([D; D; D; D] ++ time_pat) s
  || matches (C "+"%char :: [D; D; D; D; D; D] ++ time_pat) s
  || matches (C "-"%char :: [D; D; D; D; D; D] ++ time_pat) s.

End IsoDate.
Import IsoDate.

(* ===================================================================== *)
(** * The server: environment, state and the handler monad *)
(* ===================================================================== *)

Module Server.

(** ** The upstream API *)

(** The request body [payload] of [callGroq]. *)
Record Payload := {
  model : string;
  messages : list (string * jsstring);   (* role, content *)
  max_tokens : Z;
  temperature : Q
}.

(** One call of [fetch]. *)
Record FetchCall := {
  fetch_url : string;
  fetch_method : string;
  authorization : jsstring;
  content_type : string;
  fetch_body : Payload
}.

(** The completion document, at the schema [callGroq] reads: every field
    its optional chain visits may be absent ([None] stands for a missing
    or [null] field), a field that is present holds a string. *)
Record ChatMessage := { content : option jsstring }.
Record Choice := { message : option ChatMessage; text : option jsstring }.
Record Completion := { choices : option (list Choice) }.

(** [r.json()]: the parsed body, or the parser's error message. *)
Inductive JsonBody :=
| BadJson (msg : jsstring)
| Json (j : Completion).

Record Response := {
  ok : bool;              (* r.ok *)
  raw : jsstring;         (* r.text() *)
  json : JsonBody         (* r.json() *)
}.

(** [fetch] either rejects (no HTTP response at all) or resolves.  A call
    that never settles (the source sets no timeout) is not represented: the
    embedding describes the runs in which the upstream call settles. *)
Inductive FetchOutcome :=
| Rejected (msg : jsstring)
| Responded (r : Response).

(** ** The runtime's URL parser *)

(** The parts of [new URL(url)] the transcript handler reads; [search] is
    [u.search] as the name/value pairs [URLSearchParams] splits it into. *)
Record URL := {
  hostname : jsstring;
  pathname : jsstring;
  search : list (jsstring * jsstring)
}.

(** ** Environment *)

Record Env := {
  GROQ_KEY : jsstring;                       (* process.env.GROQ_KEY || '' *)
  upstream : nat -> FetchOutcome;            (* outcome of the n-th fetch *)
  fs_fault : nat -> option jsstring;         (* n-th writeFileSync: the error it throws *)
  wall_clock : nat -> Z;                     (* n-th reading of the clock, in ms *)
  parse_URL : jsstring -> option URL         (* new URL(s); None when it throws *)
}.

(** ** What a handler does to its response object *)

Inductive Action :=
| Status (code : nat)                              (* res.status(code) *)
| SetHeaders (h : list (string * string))          (* res.set({...}) *)
| FlushHeaders                                     (* res.flushHeaders() *)
| SendJson (body : JsValue)                        (* res.json(body) *)
| SendFile (path : list string)                    (* res.sendFile(path) *)
| Write (data : jsstring)                          (* res.write(data) *)
| Pause (ms : nat)                                 (* await of a setTimeout *)
| End.                                             (* res.end() *)

(** ** Server state *)

(** [disk] is the content of [HISTORY_FILE] as the JSON document it holds
    ([None]: no file).  A failed write is modelled as leaving the file as
    it was. *)
Record State := {
  history : list JsValue;         (* let history *)
  disk : option JsValue;          (* history.json *)
  console : list jsstring;        (* lines of console.error *)
  net_log : list FetchCall;       (* the calls of fetch so far *)
  fs_writes : nat;                (* number of writeFileSync calls so far *)
  clock_reads : nat;              (* number of clock readings so far *)
  out : list Action               (* what was done to res, in order *)
}.

Definition set_history (h : list JsValue) (s : State) : State :=
  {| history := h; disk := disk s; console := console s; net_log := net_log s;
     fs_writes := fs_writes s; clock_reads := clock_reads s; out := out s |}.
Definition set_disk (d : option JsValue) (s : State) : State :=
  {| history := history s; disk := d; console := console s; net_log := net_log s;
     fs_writes := fs_writes s; clock_reads := clock_reads s; out := out s |}.
Definition set_console (c : list jsstring) (s : State) : State :=
  {| history := history s; disk := disk s; console := c; net_log := net_log s;
     fs_writes := fs_writes s; clock_reads := clock_reads s; out := out s |}.
Definition set_net_log (l : list FetchCall) (s : State) : State :=
  {| history := history s; disk := disk s; console := console s; net_log := l;
     fs_writes := fs_writes s; clock_reads := clock_reads s; out := out s |}.
Definition set_fs_writes (n : nat) (s : State) : State :=
  {| history := history s; disk := disk s; console := console s; net_log := net_log s;
     fs_writes := n; clock_reads := clock_reads s; out := out s |}.
Definition set_clock_reads (n : nat) (s : State) : State :=
  {| history := history s; disk := disk s; console := console s; net_log := net_log s;
     fs_writes := fs_writes s; clock_reads := n; out := out s |}.
Definition set_out (o : list Action) (s : State) : State :=
  {| history := history s; disk := disk s; console := console s; net_log := net_log s;
     fs_writes := fs_writes s; clock_reads := clock_reads s; out := o |}.

(** ** The monad: state, plus exceptions carrying [err.message] *)

Inductive Result (A : Type) :=
| Ok (a : A)
| Throw (msg : jsstring).
Arguments Ok {A} a.
Arguments Throw {A} msg.

Definition M (A : Type) := Env -> State -> Result A * State.

Definition ret {A} (a : A) : M A := fun _ s => (Ok a, s).

Definition bind {A B} (m : M A) (k : A -> M B) : M B :=
  fun e s =>
    match m e s with
    | (Ok a, s') => k a e s'
    | (Throw msg, s') => (Throw msg, s')
    end.

(** [throw new Error(msg)]. *)
Definition throw {A} (msg : jsstring) : M A := fun _ s => (Throw msg, s).

(** [try { m } catch (err) { h err.message }]: what [m] did before it
    threw stays done. *)
Definition try_catch {A} (m : M A) (h : jsstring -> M A) : M A :=
  fun e s =>
    match m e s with
    | (Ok a, s') => (Ok a, s')
    | (Throw msg, s') => h msg e s'
    end.

Definition asks {A} (f : Env -> A) : M A := fun e s => (Ok (f e), s).
Definition gets {A} (f : State -> A) : M A := fun _ s => (Ok (f s), s).
Definition modify (f : State -> State) : M unit := fun _ s => (Ok tt, f s).

End Server.
Import Server.

Declare Scope monad_scope.
Delimit Scope monad_scope with monad.
Notation "x <- m ;; k" := (bind m (fun x => k))
  (at level 61, m at next level, right associativity) : monad_scope.
Notation "m ;; k" := (bind m (fun _ => k))
  (at level 61, right associativity) : monad_scope.
Open Scope monad_scope.
Open Scope list_scope.

(* ===================================================================== *)
(** * The application *)
(* ===================================================================== *)

Module App.

(** ** Primitives of the runtime *)

(** [await fetch(url, init)]: the call is logged, its outcome comes from the
    environment. *)
Definition fetch (c : FetchCall) : M Response :=
  n <- gets (fun s => List.length (net_log s)) ;;
  modify (fun s => set_net_log (net_log s ++ [c]) s) ;;
  o <- asks (fun e => upstream e n) ;;
  match o with
  | Rejected msg => throw msg
  | Responded r => ret r
  end.

(** [await r.json()]. *)
Definition r_json (r : Response) : M Completion :=
  match json r with
  | BadJson msg => throw msg
  | Json j => ret j
  end.

(** [Date.now()], and the time value of [new Date()]. *)
Definition Date_now : M Z :=
  n <- gets clock_reads ;;
  modify (set_clock_reads (S n)) ;;
  asks (fun e => wall_clock e n).

(** [fs.writeFileSync(HISTORY_FILE, JSON.stringify(doc, null, 2), 'utf8')]. *)
Definition writeFileSync (doc : JsValue) : M unit :=
  n <- gets fs_writes ;;
  modify (set_fs_writes (S n)) ;;
  fault <- asks (fun e => fs_fault e n) ;;
  match fault with
  | Some msg => throw msg
  | None => modify (set_disk (Some doc))
  end.

Definition console_error (line : jsstring) : M unit :=
  modify (fun s => set_console (console s ++ [line]) s).

(** One operation on [res]. *)
Definition act (a : Action) : M unit :=
  modify (fun s => set_out (out s ++ [a]) s).

(** ** The history store *)

Definition push (r : JsValue) : M unit :=
  modify (fun s => set_history (history s ++ [r]) s).

Definition saveHistory : M unit :=
  try_catch
    (h <- gets history ;; writeFileSync (JArr h))
    (fun msg => console_error (lit "Failed to save history: " ++ msg)).

(** ** The upstream client *)

Definition groq_request (key prompt : jsstring) : FetchCall :=
  {| fetch_url := "https://api.groq.com/openai/v1/chat/completions";
     fetch_method := "POST";
     authorization := lit "Bearer " ++ key;
     content_type := "application/json";
     fetch_body :=
       {| model := "llama-3.1-70b-versatile";
          messages := [("user"%string, prompt)];
          max_tokens := 800;
          temperature := Qmake 6 10 |} |}.

(** [j?.choices?.[0]]. *)
Definition first_choice (j : Completion) : option Choice :=
  match choices j with
  | Some (c :: _) => Some c
  | _ => None
  end.

(** [c?.message?.content]. *)
Definition message_content (c : Choice) : option jsstring :=
  match message c with
  | Some m => content m
  | None => None
  end.

(** [a || b] on possibly absent strings: [a] unless it is absent or empty. *)
Definition or_else (a b : option jsstring) : option jsstring :=
  match a with
  | Some (_ :: _) => a
  | _ => b
  end.

(** [j?.choices?.[0]?.message?.content || j?.choices?.[0]?.text || '']. *)
Definition completion_text (j : Completion) : jsstring :=
  let by_message :=
    match first_choice j with
    | Some c => message_content c
    | None => None
    end in
  let by_text :=
    match first_choice j with
    | Some c => text c
    | None => None
    end in
  match or_else (or_else by_message by_text) (Some []) with
  | Some s => s
  | None => []
  end.

Definition callGroq (prompt : jsstring) : M jsstring :=
  key <- asks GROQ_KEY ;;
  if is_empty key then throw (lit "GROQ_KEY not set on server")
  else
    r <- fetch (groq_request key prompt) ;;
    if negb (ok r) then throw (lit "Groq API error: " ++ raw r)
    else
      j <- r_json r ;;
      ret (completion_text j).

(** ** Request bodies *)

(** A field of a JSON request body, seen through the two operations the
    handlers apply to it: its truthiness and [String(...)].  [Other] is any
    value that is not a string. *)
Inductive Field :=
| Absent
| Str (s : jsstring)
| Other (truthy : bool) (str : jsstring).

Definition truthy (f : Field) : bool :=
  match f with
  | Absent => false
  | Str s => negb (is_empty s)
  | Other t _ => t
  end.

Definition String_ (f : Field) : jsstring :=
  match f with
  | Absent => lit "undefined"
  | Str s => s
  | Other _ s => s
  end.

Record Body := { body_prompt : Field; body_text : Field; body_tone : Field }.

(** [req.body && req.body.f ? String(req.body.f) : dflt]. *)
Definition field_or (body : option Body) (f : Body -> Field) (dflt : jsstring) : jsstring :=
  match body with
  | Some b => if truthy (f b) then String_ (f b) else dflt
  | None => dflt
  end.

Definition error_body (msg : jsstring) : JsValue := JObj [("error"%string, JStr msg)].

(** ** POST /ai *)

Definition ai_record (id : Z) (prompt reply : jsstring) (ts : Z) : JsValue :=
  JObj [("id", JNum id); ("prompt", JStr prompt); ("reply", JStr reply);
        ("ts", JStr (toISOString ts))]%string.

Definition post_ai (body : option Body) : M unit :=
  let prompt := field_or body body_prompt [] in
  if is_empty prompt then
    act (Status 400) ;; act (SendJson (error_body (lit "Prompt empty")))
  else
    try_catch
      (reply <- callGroq prompt ;;
       id <- Date_now ;;
       ts <- Date_now ;;
       push (ai_record id prompt reply ts) ;;
       saveHistory ;;
       act (SendJson (JObj [("reply"%string, JStr reply)])))
      (fun msg => act (Status 500) ;; act (SendJson (error_body msg))).

(** ** GET /ai/stream *)

Definition CHUNK_SIZE : nat := 60.

Definition sse_headers : list (string * string) :=
  [("Content-Type", "text/event-stream"); ("Cache-Control", "no-cache");
   ("Connection", "keep-alive")]%string.

Definition data_event (chunk : jsstring) : jsstring :=
  lit "data: " ++ chunk ++ LF ++ LF.

Definition done_event : jsstring :=
  lit "event: done" ++ LF ++ lit "data: [DONE]" ++ LF ++ LF.

Definition error_event (msg : jsstring) : jsstring :=
  lit "event: error" ++ LF ++ lit "data: " ++ msg ++ LF ++ LF.

(** The loop [while (sent < reply.length) { ... }]. *)
Equations? stream_loop (reply : jsstring) (sent : nat) : M unit
  by wf (List.length reply - sent) lt :=
  stream_loop reply sent with lt_dec sent (List.length reply) := {
    | left _ =>
        act (Write (data_event (slice reply sent (sent + CHUNK_SIZE)))) ;;
        act (Pause 120) ;;
        stream_loop reply (sent + CHUNK_SIZE)
    | right _ => ret tt }.
Proof. unfold CHUNK_SIZE. lia. Qed.

(** [q] is [req.query.prompt]: absent, or the string given once. *)
Definition get_ai_stream (q : option jsstring) : M unit :=
  let prompt := match q with Some p => p | None => [] end in
  if is_empty prompt then
    act (Status 400) ;; act (SendJson (error_body (lit "Prompt missing")))
  else
    act (SetHeaders sse_headers) ;;
    act FlushHeaders ;;
    try_catch
      (reply <- callGroq prompt ;;
       id <- Date_now ;;
       ts <- Date_now ;;
       push (ai_record id prompt reply ts) ;;
       saveHistory ;;
       stream_loop reply 0 ;;
       act (Write done_event) ;;
       act End)
      (fun msg => act (Write (error_event msg)) ;; act End).

(** ** GET /yt/transcript *)

(** [new URLSearchParams(u.search).get(name)]: the first value given for
    [name], [None] for [null]. *)
Fixpoint search_get (name : jsstring) (params : list (jsstring * jsstring)) : option jsstring :=
  match params with
  | [] => None
  | (k, v) :: rest => if Js.eqb k name then Some v else search_get name rest
  end.

(** The inner [try] block that extracts the video id; [None] is [null]. *)
Definition video_id (parsed : option URL) : option jsstring :=
  match parsed with
  | None => None                                     (* new URL threw *)
  | Some u =>
      let vid := None in
      let vid := if includes (lit "youtu.be") (hostname u)
                 then Some (skipn 1 (pathname u)) else vid in
      let vid := if includes (lit "youtube.com") (hostname u)
                 then search_get (lit "v") (search u) else vid in
      vid
  end.

Definition no_video_id : jsstring :=
  lit "Could not parse video id. Provide a full YouTube URL.".

Definition stub_guidance : jsstring :=
  lit "Transcript fetching is environment-dependent. Use an external transcript service or provide the text. This endpoint is a stub to show where to implement transcript fetching.".

(** [q] is [req.query.url]: absent, or the string given once. *)
Definition get_yt_transcript (q : option jsstring) : M unit :=
  let url := match q with Some u => u | None => [] end in
  if is_empty url then
    act (Status 400) ;; act (SendJson (error_body (lit "url missing")))
  else
    try_catch
      (parsed <- asks (fun e => parse_URL e url) ;;
       match video_id parsed with
       | Some (_ :: _) => act (SendJson (error_body stub_guidance))
       | _ => act (SendJson (error_body no_video_id))
       end)
      (fun msg => act (Status 500) ;; act (SendJson (error_body msg))).

(** ** POST /ig/caption *)

Definition caption_prompt (tone text : jsstring) : jsstring :=
  lit "Buatkan caption Instagram singkat dan menarik dalam bahasa Indonesia dengan tone "
    ++ tone ++ lit " berdasarkan teks ini: " ++ text ++ lit ". Sertakan 3 tagar relevan.".

Definition caption_record (id : Z) (text tone reply : jsstring) (ts : Z) : JsValue :=
  JObj [("id", JNum id); ("type", JStr (lit "ig_caption")); ("text", JStr text);
        ("tone", JStr tone); ("reply", JStr reply); ("ts", JStr (toISOString ts))]%string.

Definition post_ig_caption (body : option Body) : M unit :=
  let text := field_or body body_text [] in
  let tone := field_or body body_tone (lit "inspiratif") in
  if is_empty text then
    act (Status 400) ;; act (SendJson (error_body (lit "text missing")))
  else
    try_catch
      (reply <- callGroq (caption_prompt tone text) ;;
       id <- Date_now ;;
       ts <- Date_now ;;
       push (caption_record id text tone reply ts) ;;
       saveHistory ;;
       act (SendJson (JObj [("caption"%string, JStr reply)])))
      (fun msg => act (Status 500) ;; act (SendJson (error_body msg))).

(** ** GET /history and POST /history/clear *)

(** [history.slice().reverse()]: the reversal is done on a copy. *)
Definition get_history : M unit :=
  h <- gets history ;;
  act (SendJson (JArr (rev h))).

Definition post_history_clear : M unit :=
  modify (set_history []) ;;
  saveHistory ;;
  act (SendJson (JObj [("ok"%string, JBool true)])).

(** ** GET / *)

Definition get_root : M unit :=
  act (SendFile ["public"; "index.html"]%string).

(** ** Routing *)

Inductive Request :=
| PostAi (body : option Body)
| GetAiStream (prompt : option jsstring)
| GetYtTranscript (url : option jsstring)
| PostIgCaption (body : option Body)
| GetHistory
| PostHistoryClear
| GetRoot.

Definition route (r : Request) : M unit :=
  match r with
  | PostAi body => post_ai body
  | GetAiStream q => get_ai_stream q
  | GetYtTranscript q => get_yt_transcript q
  | PostIgCaption body => post_ig_caption body
  | GetHistory => get_history
  | PostHistoryClear => post_history_clear
  | GetRoot => get_root
  end.

(** The state after a handler ran on a fresh response object; [out] of the
    result is what the handler did to it. *)
Definition handle (e : Env) (r : Request) (s : State) : State :=
  snd (route r e (set_out [] s)).

(** Requests served one after the other. *)
Definition serve (e : Env) (rs : list Request) (s : State) : State :=
  fold_left (fun st r => handle e r st) rs s.

(** ** Reading a run *)

(** What [callGroq] hands back in a given state: the reply it returns or
    the message of the error it throws. *)
Definition upstream_returns (e : Env) (s : State) (prompt reply : jsstring) : Prop :=
  fst (callGroq prompt e s) = Ok reply.

Definition upstream_fails (e : Env) (s : State) (prompt msg : jsstring) : Prop :=
  fst (callGroq prompt e s) = Throw msg.

(** The same environment with a disk that never fails. *)
Definition sound_disk (e : Env) : Env :=
  {| GROQ_KEY := GROQ_KEY e; upstream := upstream e; fs_fault := fun _ => None;
     wall_clock := wall_clock e; parse_URL := parse_URL e |}.

(** The clock never runs backwards. *)
Definition monotone_clock (e : Env) : Prop :=
  forall i j, i <= j -> (wall_clock e i <= wall_clock e j)%Z.

(** The prompt a request makes its handler send upstream; [None] when the
    handler answers without calling the upstream client. *)
Definition upstream_prompt (r : Request) : option jsstring :=
  match r with
  | PostAi body =>
      let prompt := field_or body body_prompt [] in
      if is_empty prompt then None else Some prompt
  | GetAiStream q =>
      let prompt := match q with Some p => p | None => [] end in
      if is_empty prompt then None else Some prompt
  | PostIgCaption body =>
      let text := field_or body body_text [] in
      let tone := field_or body body_tone (lit "inspiratif") in
      if is_empty text then None else Some (caption_prompt tone text)
  | _ => None
  end.

(** The strings written with [res.write], in order. *)
Definition writes (tr : list Action) : list jsstring :=
  flat_map (fun a => match a with Write d => [d] | _ => [] end) tr.

Definition pauses (tr : list Action) : list nat :=
  flat_map (fun a => match a with Pause ms => [ms] | _ => [] end) tr.

(** The fragments [reply.slice(0, 60)], [reply.slice(60, 120)], ... cut by
    [n] rounds of the loop from offset [sent]. *)
Fixpoint fragments (n : nat) (reply : jsstring) (sent : nat) : list jsstring :=
  match n with
  | O => []
  | S n' => slice reply sent (sent + CHUNK_SIZE)
            :: fragments n' reply (sent + CHUNK_SIZE)
  end.

(** [ceil(a / b)]. *)
Definition ceil_div (a b : nat) : nat := (a + (b - 1)) / b.

(** Record ids, in insertion order. *)
Definition ids (h : list JsValue) : list Z :=
  flat_map (fun r => match get "id" r with Some (JNum n) => [n] | _ => [] end) h.

Fixpoint nondecreasing (l : list Z) : Prop :=
  match l with
  | [] => True
  | x :: rest => (match rest with [] => True | y :: _ => (x <= y)%Z end) /\ nondecreasing rest
  end.

(** The ids in the history are in order and none is ahead of the clock. *)
Definition ids_in_order (e : Env) (s : State) : Prop :=
  nondecreasing (ids (history s))
  /\ Forall (fun x => (x <= wall_clock e (clock_reads s))%Z) (ids (history s)).

End App.
Import App.

(* ===================================================================== *)
(** * Sample runs *)
(* ===================================================================== *)

Module Demo.

Definition prompt : jsstring := lit "Ceritakan kisah sukses singkat".

(** A reply of 134 code units: three fragments. *)
Definition reply : jsstring :=
  lit "Kisah sukses selalu dimulai dari satu langkah kecil. Tetap konsisten, belajar dari kegagalan, dan jangan berhenti mencoba setiap hari.".

Definition completion : Completion :=
  {| choices := Some [ {| message := Some {| content := Some reply |}; text := None |} ] |}.

Definition embed_url : jsstring := lit "https://www.youtube.com/embed/dQw4w9WgXcQ".
Definition watch_url : jsstring := lit "https://www.youtube.com/watch?v=dQw4w9WgXcQ".

Definition short_url : jsstring := lit "https://youtu.be/dQw4w9WgXcQ".

(** What [new URL] makes of the three addresses above; it rejects the
    rest. *)
Definition parse (u : jsstring) : option URL :=
  if Js.eqb u embed_url then
    Some {| hostname := lit "www.youtube.com"; pathname := lit "/embed/dQw4w9WgXcQ";
            search := [] |}
  else if Js.eqb u watch_url then
    Some {| hostname := lit "www.youtube.com"; pathname := lit "/watch";
            search := [(lit "v", lit "dQw4w9WgXcQ")] |}
  else if Js.eqb u short_url then
    Some {| hostname := lit "youtu.be"; pathname := lit "/dQw4w9WgXcQ";
            search := [] |}
  else None.

(** A configured server whose upstream answers [reply], with a working disk
    and a clock that ticks one millisecond per reading. *)
Definition env : Env :=
  {| GROQ_KEY := lit "gsk_demo";
     upstream := fun _ => Responded {| ok := true; raw := lit "(body)"; json := Json completion |};
     fs_fault := fun _ => None;
     wall_clock := fun n => (1700000000000 + Z.of_nat n)%Z;
     parse_URL := parse |}.

(** The same server with a disk that refuses every write. *)
Definition env_disk_full : Env :=
  {| GROQ_KEY := GROQ_KEY env; upstream := upstream env;
     fs_fault := fun _ => Some (lit "ENOSPC: no space left on device, write");
     wall_clock := wall_clock env; parse_URL := parse_URL env |}.

(** The same server without a credential. *)
Definition env_no_key : Env :=
  {| GROQ_KEY := []; upstream := upstream env; fs_fault := fs_fault env;
     wall_clock := wall_clock env; parse_URL := parse_URL env |}.

Definition rate_limited : Response :=
  {| ok := false; raw := lit "rate limit exceeded"; json := BadJson (lit "Unexpected token r") |}.

(** The same server with an upstream that answers with an error status. *)
Definition env_rate_limited : Env :=
  {| GROQ_KEY := GROQ_KEY env; upstream := fun _ => Responded rate_limited;
     fs_fault := fs_fault env; wall_clock := wall_clock env; parse_URL := parse_URL env |}.

Definition no_choices : Response :=
  {| ok := true; raw := lit "{}"; json := Json {| choices := None |} |}.

(** The same server with an upstream that answers with a document without
    completions. *)
Definition env_no_choices : Env :=
  {| GROQ_KEY := GROQ_KEY env; upstream := fun _ => Responded no_choices;
     fs_fault := fs_fault env; wall_clock := wall_clock env; parse_URL := parse_URL env |}.

(** A freshly started server with no history file. *)
Definition start : State :=
  {| history := []; disk := None; console := []; net_log := [];
     fs_writes := 0; clock_reads := 0; out := [] |}.

Definition body : Body :=
  {| body_prompt := Str prompt; body_text := Absent; body_tone := Absent |}.

Definition no_prompt : Body :=
  {| body_prompt := Absent; body_text := Absent; body_tone := Absent |}.

Definition caption : Body :=
  {| body_prompt := Absent; body_text := Str (lit "Peluncuran produk baru");
     body_tone := Absent |}.

(** A morning of traffic. *)
Definition session : list Request :=
  [PostAi (Some body); GetHistory; GetAiStream (Some prompt);
   PostIgCaption (Some caption); PostAi (Some no_prompt)].

End Demo.

(* ===================================================================== *)
(** * Process startup: loading the history file *)
(* ===================================================================== *)

Module Startup.

(** What the process finds at [HISTORY_FILE] when it starts. *)
Inductive HistoryFile :=
| NoFile                          (* fs.existsSync(HISTORY_FILE) is false *)
| Unreadable (msg : jsstring)     (* fs.readFileSync throws *)
| EmptyFile                       (* the file is the empty string *)
| Invalid (msg : jsstring)        (* JSON.parse throws on its text *)
| Document (v : JsValue).         (* its text is the JSON text of v *)

(** [fs.readFileSync(HISTORY_FILE, 'utf8') || '[]'] followed by
    [JSON.parse]. *)
Definition read_and_parse (f : HistoryFile) : Result JsValue :=
  match f with
  | NoFile => Ok (JArr [])
  | Unreadable msg => Throw msg
  | EmptyFile => Ok (JArr [])
  | Invalid msg => Throw msg
  | Document v => Ok v
  end.

(** The block [let history = []; try { if (fs.existsSync(...)) {...} }
    catch (e) {...}]: the value of [history] once it has run, and the lines
    it printed with [console.error]. *)
Definition loadHistory (f : HistoryFile) : JsValue * list jsstring :=
  let history := JArr [] in
  match f with
  | NoFile => (history, [])
  | _ =>
      match read_and_parse f with
      | Ok v => (v, [])
      | Throw msg => (JArr [], [lit "Failed to load history: " ++ msg])
      end
  end.

(** The file a later process finds, given what this one left on disk. *)
Definition file_on_disk (d : option JsValue) : HistoryFile :=
  match d with
  | None => NoFile
  | Some v => Document v
  end.

(** A process restarted on the file of state [s] would load the history
    that [s] has in memory. *)
Definition mirrors (s : State) : Prop :=
  fst (loadHistory (file_on_disk (disk s))) = JArr (history s).

(** Every write of the history file succeeds. *)
Definition disk_works (e : Env) : Prop := forall n, fs_fault e n = None.

End Startup.
Import Startup.

(* ===================================================================== *)
(** * Reading a response, continued *)
(* ===================================================================== *)

Module Reading.

(** The operations that send the response off: [res.json], [res.sendFile]
    and [res.end]. *)
Definition terminal (a : Action) : bool :=
  match a with
  | SendJson _ | SendFile _ | End => true
  | _ => false
  end.

(** The response is sent off exactly once, by the last operation. *)
Definition answered_once (tr : list Action) : Prop :=
  exists before last,
    tr = before ++ [last]
    /\ terminal last = true
    /\ forallb (fun a => negb (terminal a)) before = true.

(** The status code a response sent with [res.json], or written and ended,
    goes out with: the last [res.status], 200 when there is none.  It says
    nothing of [res.sendFile], whose status depends on the file. *)
Definition status_of (tr : list Action) : nat :=
  fold_left (fun code a => match a with Status c => c | _ => code end) tr 200.

(** The required field of the request is missing or empty. *)
Definition rejected (r : Request) : bool :=
  match r with
  | PostAi body => is_empty (field_or body body_prompt [])
  | GetAiStream q => is_empty match q with Some p => p | None => [] end
  | GetYtTranscript q => is_empty match q with Some u => u | None => [] end
  | PostIgCaption body => is_empty (field_or body body_text [])
  | _ => false
  end.

(** The message of the 400 response of each handler. *)
Definition rejection (r : Request) : jsstring :=
  match r with
  | PostAi _ => lit "Prompt empty"
  | GetAiStream _ => lit "Prompt missing"
  | GetYtTranscript _ => lit "url missing"
  | PostIgCaption _ => lit "text missing"
  | _ => []
  end.

(** A call of the completion endpoint with the configured key and nothing
    else. *)
Definition to_groq (e : Env) (c : FetchCall) : Prop :=
  fetch_url c = "https://api.groq.com/openai/v1/chat/completions"%string
  /\ fetch_method c = "POST"%string
  /\ authorization c = lit "Bearer " ++ GROQ_KEY e
  /\ model (fetch_body c) = "llama-3.1-70b-versatile"%string
  /\ exists prompt, messages (fetch_body c) = [("user"%string, prompt)].

End Reading.
Import Reading.

(* ===================================================================== *)
(** * The browser scripts *)
(* ===================================================================== *)

Module Browser.

(** The item [localStorage[KEY]], as the text it holds. *)
Inductive Stored :=
| NoItem                          (* getItem returns null *)
| Blank                           (* the empty string *)
| Unparsable (msg : jsstring)     (* JSON.parse throws on it *)
| Parsed (v : JsValue).           (* the JSON text of v *)

(** The error object a [catch] receives. *)
Inductive Failure :=
| SyntaxError (msg : jsstring)    (* from JSON.parse *)
| TypeError                       (* arr.push is not a function, arr is null *)
| StorageError (msg : jsstring).  (* from localStorage.setItem *)

Inductive Warning :=
| SaveError (f : Failure)         (* console.warn('saveChatMessage error', e) *)
| TtsNotSupported.                (* console.warn('TTS not supported') *)

(** [speech] is the utterance queue of [window.speechSynthesis], [None]
    when the page has no such object. *)
Record Page := {
  item : Stored;
  speech : option (list jsstring);
  warnings : list Warning
}.

Definition set_item (i : Stored) (p : Page) : Page :=
  {| item := i; speech := speech p; warnings := warnings p |}.
Definition set_speech (q : option (list jsstring)) (p : Page) : Page :=
  {| item := item p; speech := q; warnings := warnings p |}.
Definition warn (w : Warning) (p : Page) : Page :=
  {| item := item p; speech := speech p; warnings := warnings p ++ [w] |}.

(** [JSON.parse(localStorage.getItem(KEY) || '[]')]. *)
Definition parse_item (i : Stored) : JsValue + Failure :=
  match i with
  | NoItem => inl (JArr [])
  | Blank => inl (JArr [])
  | Unparsable msg => inr (SyntaxError msg)
  | Parsed v => inl v
  end.

Definition chat_message (role text : jsstring) (t : Z) : JsValue :=
  JObj [("role", JStr role); ("text", JStr text); ("t", JNum t)]%string.

(** [arr.push(m); if (arr.length > 50) arr.splice(0, arr.length - 50)]. *)
Definition push_capped (arr : list JsValue) (m : JsValue) : list JsValue :=
  let arr := arr ++ [m] in
  if 50 <? List.length arr then skipn (List.length arr - 50) arr else arr.

(** [window.saveChatMessage(role, text)]: [now] is the reading of
    [Date.now()], [quota] the error [localStorage.setItem] throws, if any. *)
Definition saveChatMessage (role text : jsstring) (now : Z) (quota : option jsstring)
    (p : Page) : Page :=
  let attempt : Stored + Failure :=
    match parse_item (item p) with
    | inr f => inr f
    | inl (JArr arr) =>
        let arr := push_capped arr (chat_message role text now) in
        match quota with
        | Some msg => inr (StorageError msg)
        | None => inl (Parsed (JArr arr))
        end
    | inl _ => inr TypeError
    end in
  match attempt with
  | inl i => set_item i p
  | inr f => warn (SaveError f) p
  end.

(** [window.loadChatHistory()]. *)
Definition loadChatHistory (p : Page) : JsValue :=
  match parse_item (item p) with
  | inl v => v
  | inr _ => JArr []
  end.

(** [window.playTTS(text)]: [cancel] empties the queue, [speak] appends to
    it. *)
Definition playTTS (text : jsstring) (p : Page) : Page :=
  match speech p with
  | Some queue =>
      let queue : list jsstring := [] in
      set_speech (Some (queue ++ [text])) p
  | None => warn TtsNotSupported p
  end.

(** One call of [saveChatMessage], with what the environment does to it. *)
Record Save := {
  save_role : jsstring;
  save_text : jsstring;
  save_now : Z;
  save_quota : option jsstring
}.

Definition save (p : Page) (c : Save) : Page :=
  saveChatMessage (save_role c) (save_text c) (save_now c) (save_quota c) p.

Definition message_of (c : Save) : JsValue :=
  chat_message (save_role c) (save_text c) (save_now c).

(** The last [n] elements of a list. *)
Definition last_n {A} (n : nat) (l : list A) : list A :=
  skipn (List.length l - n) l.

(** The stored item cannot be used as the array of messages. *)
Definition unusable (i : Stored) : Prop :=
  (exists msg, i = Unparsable msg)
  \/ (exists v, i = Parsed v /\ forall arr, v <> JArr arr).

(** A page that has stored nothing yet. *)
Definition fresh : Page :=
  {| item := NoItem; speech := Some []; warnings := [] |}.

(** [n] messages sent one millisecond apart, all accepted by the storage. *)
Definition burst (n : nat) : list Save :=
  map (fun i => {| save_role := lit "user"; save_text := lit "pesan";
                   save_now := (1700000000000 + Z.of_nat i)%Z; save_quota := None |})
      (seq 0 n).

End Browser.

Unset Implicit Arguments.

Arguments lit : simpl never.
Arguments digit : simpl never.
Arguments toISOString : simpl never.

(* ===================================================================== *)
(** * Running the monad *)
(* ===================================================================== *)

Lemma set_out_same (s : State) : set_out (out s) s = s.
Proof. destruct s; reflexivity. Qed.

Lemma is_empty_false (p : jsstring) : p <> [] -> is_empty p = false.
Proof. destruct p; [congruence | reflexivity]. Qed.

(** Unfolds a straight-line handler down to the state it ends in. *)
Ltac run :=
  unfold handle, route, post_ai, get_ai_stream, get_yt_transcript, post_ig_caption,
    get_history, post_history_clear, get_root, saveHistory, writeFileSync,
    console_error, push, act, Date_now, try_catch, bind, ret, throw, asks, gets,
    modify;
  cbn [fst snd history disk console net_log fs_writes clock_reads out
       set_history set_disk set_console set_net_log set_fs_writes set_clock_reads
       set_out].

(** The result of the upstream client, read off the environment: [n] is the
    number of calls [fetch] served before. *)
Lemma callGroq_run (prompt : jsstring) (e : Env) (s : State) :
  callGroq prompt e s =
  if is_empty (GROQ_KEY e) then (Throw (lit "GROQ_KEY not set on server"), s)
  else
    let s1 := set_net_log (net_log s ++ [groq_request (GROQ_KEY e) prompt]) s in
    match upstream e (List.length (net_log s)) with
    | Rejected msg => (Throw msg, s1)
    | Responded r =>
        if ok r then
          match json r with
          | BadJson msg => (Throw msg, s1)
          | Json j => (Ok (completion_text j), s1)
          end
        else (Throw (lit "Groq API error: " ++ raw r), s1)
    end.
Proof.
  unfold callGroq, fetch, r_json. run.
  destruct (is_empty (GROQ_KEY e)); [reflexivity |].
  destruct (upstream e (List.length (net_log s))) as [msg | r]; [reflexivity |].
  cbn. destruct (ok r); cbn; [| reflexivity].
  destruct (json r); reflexivity.
Qed.

(** The upstream client touches nothing but the call log. *)
Lemma callGroq_state (prompt : jsstring) (e : Env) (s : State) :
  snd (callGroq prompt e s) = s \/
  snd (callGroq prompt e s) = set_net_log (net_log s ++ [groq_request (GROQ_KEY e) prompt]) s.
Proof.
  rewrite callGroq_run.
  destruct (is_empty (GROQ_KEY e)); [left; reflexivity |].
  right. cbv zeta.
  destruct (upstream e _) as [msg | r]; [reflexivity |].
  destruct (ok r); [destruct (json r) |]; reflexivity.
Qed.

(* ===================================================================== *)
(** * The streaming relay *)
(* ===================================================================== *)

Lemma firstn_add {A} (a b : nat) (l : list A) :
  firstn (a + b) l = firstn a l ++ firstn b (skipn a l).
Proof.
  revert l. induction a as [| a IH]; intros l; [reflexivity |].
  destruct l as [| x l]; cbn [Nat.add firstn skipn app].
  - rewrite firstn_nil. reflexivity.
  - rewrite IH. reflexivity.
Qed.

Section Fragments.

Variable reply : jsstring.

Lemma fragments_length (n sent : nat) :
  List.length (fragments n reply sent) = n.
Proof.
  revert sent. induction n as [| n IH]; intros sent; simpl; [| rewrite IH]; reflexivity.
Qed.

(** Fragment [i] is [reply.slice(sent + 60 i, sent + 60 i + 60)]. *)
Lemma fragments_nth (n sent i : nat) :
  i < n ->
  nth i (fragments n reply sent) [] =
  slice reply (sent + i * CHUNK_SIZE) (sent + i * CHUNK_SIZE + CHUNK_SIZE).
Proof.
  revert sent i. induction n as [| n IH]; intros sent i Hi; [lia |].
  destruct i as [| i]; cbn [fragments nth].
  - rewrite Nat.mul_0_l, Nat.add_0_r. reflexivity.
  - rewrite IH by lia. f_equal; lia.
Qed.

(** Put back together, [n] fragments are the [60 n] code units that follow
    offset [sent]. *)
Lemma fragments_concat (n sent : nat) :
  List.concat (fragments n reply sent) = firstn (n * CHUNK_SIZE) (skipn sent reply).
Proof.
  revert sent. induction n as [| n IH]; intros sent; [reflexivity |].
  cbn [fragments List.concat]. rewrite IH. unfold slice.
  replace (sent + CHUNK_SIZE - sent) with CHUNK_SIZE by lia.
  replace (S n * CHUNK_SIZE) with (CHUNK_SIZE + n * CHUNK_SIZE) by lia.
  rewrite firstn_add, skipn_skipn, (Nat.add_comm CHUNK_SIZE sent).
  reflexivity.
Qed.

Lemma slice_length (a b : nat) :
  List.length (slice reply a b) = Nat.min (b - a) (List.length reply - a).
Proof. unfold slice. rewrite length_firstn, length_skipn. reflexivity. Qed.

End Fragments.

Lemma ceil_div_chunk (a : nat) :
  0 < a -> ceil_div a CHUNK_SIZE = S (ceil_div (a - CHUNK_SIZE) CHUNK_SIZE).
Proof.
  intros Ha. unfold ceil_div, CHUNK_SIZE. cbn [Nat.sub].
  assert (Hcases : a < 60 \/ 60 <= a) by lia. destruct Hcases as [Hlt | Hge].
  - replace (a - 60) with 0 by lia. cbn [Nat.add].
    rewrite (Nat.div_small 59 60) by lia.
    symmetry. apply (Nat.div_unique (a + 59) 60 1 (a - 1)); lia.
  - replace (a + 59) with ((a - 60 + 59) + 1 * 60) by lia.
    rewrite Nat.div_add by lia. lia.
Qed.

Lemma ceil_div_bounds (a : nat) :
  a <= ceil_div a CHUNK_SIZE * CHUNK_SIZE < a + CHUNK_SIZE.
Proof.
  unfold ceil_div, CHUNK_SIZE. cbn [Nat.sub].
  pose proof (Nat.div_mod_eq (a + 59) 60) as Hdm.
  pose proof (Nat.mod_upper_bound (a + 59) 60) as Hlt.
  lia.
Qed.

(** The loop, run from offset [sent]: one write and one pause per fragment. *)
Lemma stream_loop_run (reply : jsstring) (sent : nat) (e : Env) (s : State) :
  stream_loop reply sent e s =
  (Ok tt,
   set_out (out s ++ flat_map (fun c => [Write (data_event c); Pause 120])
                       (fragments (ceil_div (List.length reply - sent) CHUNK_SIZE) reply sent))
           s).
Proof.
  revert s. funelim (stream_loop reply sent); intros s.
  - rewrite ceil_div_chunk by lia.
    replace (List.length reply - sent - CHUNK_SIZE)
      with (List.length reply - (sent + CHUNK_SIZE)) by lia.
    cbn [fragments flat_map]. run.
    match goal with
    | IH : unit -> unit -> Env -> State -> forall e' s', stream_loop _ _ e' s' = _ |- _ =>
        rewrite (IH tt tt e s)
    end.
    run. rewrite <- !app_assoc. reflexivity.
  - replace (List.length reply - sent) with 0 by lia.
    cbn. unfold ret. rewrite app_nil_r, set_out_same. reflexivity.
Qed.

Lemma writes_app (a b : list Action) : writes (a ++ b) = writes a ++ writes b.
Proof. apply flat_map_app. Qed.

Lemma pauses_app (a b : list Action) : pauses (a ++ b) = pauses a ++ pauses b.
Proof. apply flat_map_app. Qed.

Lemma writes_fragments (l : list jsstring) :
  writes (flat_map (fun c => [Write (data_event c); Pause 120]) l) = map data_event l.
Proof. induction l as [| c l IH]; [reflexivity |]. cbn. f_equal. exact IH. Qed.

Lemma pauses_fragments (l : list jsstring) :
  pauses (flat_map (fun c => [Write (data_event c); Pause 120]) l) = repeat 120 (List.length l).
Proof. induction l as [| c l IH]; [reflexivity |]. cbn. f_equal. exact IH. Qed.

(** Case analysis on the upstream client: [groq_cases] splits on everything
    its result depends on; [groq_returns H] and [groq_fails H] keep the cases
    in which it returned, respectively threw, as [H] says. *)
Ltac groq_cases e s :=
  let r := fresh "r" in
  rewrite ?callGroq_run in *; cbv zeta in *;
  cbn [fst snd history disk console net_log fs_writes clock_reads out
       set_history set_disk set_console set_net_log set_fs_writes set_clock_reads
       set_out] in *;
  destruct (is_empty (GROQ_KEY e)) eqn:?;
    [| destruct (upstream e (List.length (net_log s))) as [? | r] eqn:?;
       [| destruct (ok r) eqn:?; [destruct (json r) eqn:? |]]];
  cbn [fst snd] in *.

Ltac groq_returns H :=
  unfold upstream_returns in H;
  match type of H with
  | fst (callGroq _ ?e ?s) = _ =>
      groq_cases e s; try discriminate H;
      injection H as H; try subst; run
  end.

Ltac groq_fails H :=
  unfold upstream_fails in H;
  match type of H with
  | fst (callGroq _ ?e ?s) = _ =>
      groq_cases e s; try discriminate H;
      injection H as H; try subst; run
  end.

(** A data event is never mistaken for the completion event. *)
Lemma data_event_not_done (c : jsstring) : data_event c <> done_event.
Proof. unfold data_event, done_event, lit. cbn. discriminate. Qed.

(** The response of [GET /ai/stream] once the upstream client has returned. *)
Lemma stream_trace (e : Env) (s : State) (prompt reply : jsstring) :
  prompt <> [] ->
  upstream_returns e s prompt reply ->
  out (handle e (GetAiStream (Some prompt)) s) =
  [SetHeaders sse_headers; FlushHeaders]
    ++ flat_map (fun c => [Write (data_event c); Pause 120])
         (fragments (ceil_div (List.length reply) CHUNK_SIZE) reply 0)
    ++ [Write done_event; End].
Proof.
  intros Hp Hup. destruct prompt as [| c p]; [congruence |].
  run. cbn [is_empty app]. groq_returns Hup.
  destruct (fs_fault e (fs_writes s)); run; rewrite stream_loop_run; run;
    rewrite Nat.sub_0_r, <- !app_assoc; reflexivity.
Qed.

(** The fragment is read back from a data event by dropping the six code
    units of [data: ] and the two line feeds. *)
Lemma data_event_payload (c : jsstring) :
  firstn (List.length (data_event c) - 8) (skipn 6 (data_event c)) = c.
Proof.
  unfold data_event, lit, LF. cbn.
  rewrite length_app. cbn [List.length].
  replace (List.length c + 2 - 2) with (List.length c + 0) by lia.
  rewrite firstn_app_2. cbn [firstn]. apply app_nil_r.
Qed.

(** C1. For a reply of length L returned by the upstream call, the handler of
    [GET /ai/stream] writes exactly n = ceil(L/60) data events, the i-th being
    the string [data: ], the 60 code units of the reply from offset 60 i (the
    last one between 1 and 60) and two line feeds; the payloads read back from
    the written strings, put together in order, are the reply; then it writes
    one completion event, [event: done], line feed, [data: [DONE]], two line
    feeds, and ends the response; each data event is followed by a pause of
    120 ms, so at least ceil(L/60) - 1 pauses happen before the completion
    event.  An event is one call of [res.write]. *)
Theorem stream_emits_reply_in_fragments (e : Env) (s : State) (prompt reply : jsstring) :
  prompt <> [] ->
  upstream_returns e s prompt reply ->
  let n := ceil_div (List.length reply) 60 in
  let frags := fragments n reply 0 in
  let tr := out (handle e (GetAiStream (Some prompt)) s) in
  let data := fun c : jsstring => lit "data: " ++ c ++ [10%N; 10%N] in
  let done := lit "event: done" ++ [10%N] ++ lit "data: [DONE]" ++ [10%N; 10%N] in
  let payload := fun w : jsstring => firstn (List.length w - 8) (skipn 6 w) in
  tr = [SetHeaders sse_headers; FlushHeaders]
         ++ flat_map (fun c => [Write (data c); Pause 120]) frags
         ++ [Write done; End]
  /\ writes tr = map data frags ++ [done]
  /\ (forall c, data c <> done)
  /\ List.concat (map payload (removelast (writes tr))) = reply
  /\ List.length reply <= n * 60 < List.length reply + 60
  /\ List.length frags = n
  /\ (forall i, i < n -> nth i frags [] = firstn 60 (skipn (i * 60) reply))
  /\ (forall i, S i < n -> List.length (nth i frags []) = 60)
  /\ (forall i, S i = n -> 1 <= List.length (nth i frags []) <= 60)
  /\ List.concat frags = reply
  /\ pauses tr = repeat 120 n
  /\ n - 1 <= List.length (pauses tr).
Proof.
  intros Hp Hup n frags tr data done payload.
  assert (Htr : tr = [SetHeaders sse_headers; FlushHeaders]
                       ++ flat_map (fun c => [Write (data c); Pause 120]) frags
                       ++ [Write done; End])
    by exact (stream_trace e s prompt reply Hp Hup).
  assert (Hw : writes tr = map data frags ++ [done]).
  { rewrite Htr, !writes_app. exact (f_equal (fun l => l ++ [done]) (writes_fragments frags)). }
  assert (Hlen : List.length frags = n) by apply fragments_length.
  pose proof (ceil_div_bounds (List.length reply)) as Hn.
  change (List.length reply <= n * 60 < List.length reply + 60) in Hn.
  assert (Hnth : forall i, i < n -> nth i frags [] = firstn 60 (skipn (i * 60) reply)).
  { intros i Hi. unfold frags. rewrite fragments_nth by exact Hi.
    unfold slice. change CHUNK_SIZE with 60.
    replace (0 + i * 60 + 60 - (0 + i * 60)) with 60 by lia. reflexivity. }
  assert (Hsize : forall i, i < n ->
            List.length (nth i frags []) = Nat.min 60 (List.length reply - i * 60)).
  { intros i Hi. rewrite (Hnth i Hi), length_firstn, length_skipn. reflexivity. }
  assert (Hcat : List.concat frags = reply).
  { unfold frags. rewrite fragments_concat, skipn_O. apply firstn_all2.
    change CHUNK_SIZE with 60. lia. }
  split; [exact Htr | split; [exact Hw | split; [| split; [| split; [exact Hn |]]]]].
  - intros c. exact (data_event_not_done c).
  - rewrite Hw, removelast_last, map_map.
    rewrite (map_ext (fun c => payload (data c)) (fun c => c)), map_id; [exact Hcat |].
    intros c. exact (data_event_payload c).
  - split; [exact Hlen | split; [exact Hnth | split; [| split; [| split; [exact Hcat |]]]]].
    + intros i Hi. rewrite Hsize by lia. lia.
    + intros i Hi. rewrite Hsize by lia. lia.
    + split.
      * rewrite Htr, !pauses_app, pauses_fragments, Hlen. cbn. apply app_nil_r.
      * rewrite Htr, !pauses_app, pauses_fragments, Hlen. cbn.
        rewrite app_nil_r, repeat_length. lia.
Qed.

Lemma stream_emits_reply_in_fragments_witness :
  Demo.prompt <> []
  /\ upstream_returns Demo.env Demo.start Demo.prompt Demo.reply
  /\ writes (out (handle Demo.env (GetAiStream (Some Demo.prompt)) Demo.start))
     = [lit "data: Kisah sukses selalu dimulai dari satu langkah kecil. Tetap k"
          ++ [10%N; 10%N];
        lit "data: onsisten, belajar dari kegagalan, dan jangan berhenti mencob"
          ++ [10%N; 10%N];
        lit "data: a setiap hari." ++ [10%N; 10%N];
        lit "event: done" ++ [10%N] ++ lit "data: [DONE]" ++ [10%N; 10%N]]
  /\ List.concat (fragments 3 Demo.reply 0) = Demo.reply
  /\ pauses (out (handle Demo.env (GetAiStream (Some Demo.prompt)) Demo.start))
     = [120; 120; 120].
Proof.
  assert (Hp : Demo.prompt <> []) by discriminate.
  assert (Hup : upstream_returns Demo.env Demo.start Demo.prompt Demo.reply)
    by reflexivity.
  destruct (stream_emits_reply_in_fragments Demo.env Demo.start _ _ Hp Hup)
    as (_ & Hw & _ & _ & _ & _ & _ & _ & _ & Hc & Hpa & _).
  split; [exact Hp | split; [exact Hup | split; [exact Hw | split; [exact Hc | exact Hpa]]]].
Defined.

Example stream_demo :
  writes (out (handle Demo.env (GetAiStream (Some Demo.prompt)) Demo.start))
  = [data_event (lit "Kisah sukses selalu dimulai dari satu langkah kecil. Tetap k");
     data_event (lit "onsisten, belajar dari kegagalan, dan jangan berhenti mencob");
     data_event (lit "a setiap hari.");
     done_event].
Proof. vm_compute. reflexivity. Qed.

(* ===================================================================== *)
(** * The upstream client *)
(* ===================================================================== *)





(* ===================================================================== *)
(** * The request handlers and the history log *)
(* ===================================================================== *)

Ltac run_env :=
  cbn [GROQ_KEY upstream fs_fault wall_clock parse_URL sound_disk] in *.

(** C3. For every non-empty prompt, a [POST /ai] whose upstream call returns
    appends exactly one record to the history; the record's [prompt] is the
    prompt of the request and its [reply] is the reply sent to the caller. *)
Theorem post_ai_appends_one_record
    (e : Env) (s : State) (body : Body) (p reply : jsstring) :
  body_prompt body = Str p ->
  p <> [] ->
  upstream_returns e s p reply ->
  let s' := handle e (PostAi (Some body)) s in
  exists r,
    history s' = history s ++ [r]
    /\ get "prompt" r = Some (JStr p)
    /\ get "reply" r = Some (JStr reply)
    /\ out s' = [SendJson (JObj [("reply"%string, JStr reply)])].
Proof.
  intros Hb Hp Hup s'. subst s'.
  exists (ai_record (wall_clock e (clock_reads s)) p reply
                    (wall_clock e (S (clock_reads s)))).
  destruct p as [| c p]; [congruence |].
  run. unfold field_or. rewrite Hb. cbn [truthy String_ is_empty negb].
  groq_returns Hup.
  destruct (fs_fault e (fs_writes s)); run; repeat split; reflexivity.
Qed.

Lemma post_ai_appends_one_record_witness :
  body_prompt Demo.body = Str Demo.prompt
  /\ Demo.prompt <> []
  /\ upstream_returns Demo.env Demo.start Demo.prompt Demo.reply
  /\ exists r,
       history (handle Demo.env (PostAi (Some Demo.body)) Demo.start) = [r]
       /\ get "prompt" r = Some (JStr Demo.prompt)
       /\ get "reply" r = Some (JStr Demo.reply).
Proof.
  assert (Hp : Demo.prompt <> []) by discriminate.
  assert (Hup : upstream_returns Demo.env Demo.start Demo.prompt Demo.reply)
    by reflexivity.
  destruct (post_ai_appends_one_record Demo.env Demo.start Demo.body
              Demo.prompt Demo.reply eq_refl Hp Hup) as (r & Hh & Hpr & Hre & _).
  split; [reflexivity | split; [exact Hp | split; [exact Hup |]]].
  exists r. split; [exact Hh | split; [exact Hpr | exact Hre]].
Defined.

(** C4. In every state, [GET /history] answers with the records in reverse
    insertion order, newest first: the reversal of the in-memory list, which
    itself is left as it was. *)
Theorem get_history_newest_first (e : Env) (s : State) :
  out (handle e GetHistory s) = [SendJson (JArr (rev (history s)))]
  /\ history (handle e GetHistory s) = history s.
Proof. split; reflexivity. Qed.

(** C9. A [POST /ai] without a body, without a [prompt] field or with an
    empty one is answered with status 400; no upstream call is made, no record
    is appended and nothing is written to disk. *)
Theorem post_ai_rejects_empty_prompt (e : Env) (s : State) (body : option Body) :
  (body = None
   \/ exists b, body = Some b /\ (body_prompt b = Absent \/ body_prompt b = Str [])) ->
  let s' := handle e (PostAi body) s in
  s' = set_out [Status 400; SendJson (error_body (lit "Prompt empty"))] s
  /\ out s' = [Status 400; SendJson (error_body (lit "Prompt empty"))]
  /\ net_log s' = net_log s
  /\ history s' = history s
  /\ disk s' = disk s
  /\ fs_writes s' = fs_writes s.
Proof.
  intros Hbody s'.
  assert (Hs : s' = set_out [Status 400; SendJson (error_body (lit "Prompt empty"))] s).
  { subst s'. run. unfold field_or.
    destruct Hbody as [-> | (b & -> & [Hb | Hb])]; [| rewrite Hb ..]; reflexivity. }
  rewrite Hs. repeat split; reflexivity.
Qed.

Lemma post_ai_rejects_empty_prompt_witness :
  (Some Demo.no_prompt = None
   \/ exists b, Some Demo.no_prompt = Some b
                /\ (body_prompt b = Absent \/ body_prompt b = Str []))
  /\ out (handle Demo.env (PostAi (Some Demo.no_prompt)) Demo.start)
     = [Status 400; SendJson (error_body (lit "Prompt empty"))]
  /\ net_log (handle Demo.env (PostAi (Some Demo.no_prompt)) Demo.start) = []
  /\ history (handle Demo.env (PostAi (Some Demo.no_prompt)) Demo.start) = [].
Proof.
  assert (H : Some Demo.no_prompt = None
              \/ exists b, Some Demo.no_prompt = Some b
                           /\ (body_prompt b = Absent \/ body_prompt b = Str [])).
  { right. exists Demo.no_prompt. split; [reflexivity | left; reflexivity]. }
  destruct (post_ai_rejects_empty_prompt Demo.env Demo.start (Some Demo.no_prompt) H)
    as (_ & Ho & Hn & Hh & _).
  split; [exact H | split; [exact Ho | split; [exact Hn | exact Hh]]].
Defined.

(** C10. When the upstream call of [GET /ai/stream] fails, the handler writes
    one event, [event: error], line feed, [data: ] followed by the failure
    message and two line feeds, and ends the response; nothing else is
    written, so no data fragment comes before it, and nothing is recorded. *)
Theorem stream_error_path (e : Env) (s : State) (p msg : jsstring) :
  p <> [] ->
  upstream_fails e s p msg ->
  let s' := handle e (GetAiStream (Some p)) s in
  let error := lit "event: error" ++ [10%N] ++ lit "data: " ++ msg ++ [10%N; 10%N] in
  out s' = [SetHeaders sse_headers; FlushHeaders; Write error; End]
  /\ writes (out s') = [error]
  /\ (forall c, lit "data: " ++ c ++ [10%N; 10%N] <> error)
  /\ history s' = history s.
Proof.
  intros Hp Hup s' error. subst s'.
  assert (Hnot : forall c, lit "data: " ++ c ++ [10%N; 10%N] <> error).
  { intros c. subst error. unfold lit. cbn. discriminate. }
  destruct p as [| c p]; [congruence |].
  run. cbn [is_empty].
  groq_fails Hup; (split; [reflexivity | split; [reflexivity | split; [exact Hnot | reflexivity]]]).
Qed.

Lemma stream_error_path_witness :
  Demo.prompt <> []
  /\ upstream_fails Demo.env_rate_limited Demo.start Demo.prompt
       (lit "Groq API error: rate limit exceeded")
  /\ writes (out (handle Demo.env_rate_limited (GetAiStream (Some Demo.prompt)) Demo.start))
     = [lit "event: error" ++ [10%N]
          ++ lit "data: Groq API error: rate limit exceeded" ++ [10%N; 10%N]].
Proof.
  assert (Hp : Demo.prompt <> []) by discriminate.
  assert (Hup : upstream_fails Demo.env_rate_limited Demo.start Demo.prompt
                  (lit "Groq API error: rate limit exceeded"))
    by reflexivity.
  destruct (stream_error_path Demo.env_rate_limited Demo.start Demo.prompt _ Hp Hup)
    as (_ & Hw & _).
  split; [exact Hp | split; [exact Hup | exact Hw]].
Defined.

(** Whether the disk fails or not makes no difference to what a handler
    answers, nor to the history it leaves in memory. *)
Lemma disk_fault_invisible (e : Env) (r : Request) (s : State) :
  out (handle e r s) = out (handle (sound_disk e) r s)
  /\ history (handle e r s) = history (handle (sound_disk e) r s).
Proof.
  destruct r as [body | q | q | body | | |]; run.
  - destruct (is_empty (field_or body body_prompt [])); [split; reflexivity |].
    groq_cases e s; run_env;
      repeat match goal with
             | H : _ = _ |- _ => rewrite H
             end; run; try (split; reflexivity).
    destruct (fs_fault e (fs_writes s)); run; split; reflexivity.
  - destruct (is_empty match q with Some p => p | None => [] end); [split; reflexivity |].
    groq_cases e s; run_env;
      repeat match goal with
             | H : _ = _ |- _ => rewrite H
             end; run; try (split; reflexivity).
    destruct (fs_fault e (fs_writes s)); run; rewrite !stream_loop_run; run;
      split; reflexivity.
  - destruct (is_empty match q with Some u => u | None => [] end); [split; reflexivity |].
    run_env. destruct (video_id _) as [[| c v] |]; split; reflexivity.
  - destruct (is_empty (field_or body body_text [])); [split; reflexivity |].
    groq_cases e s; run_env;
      repeat match goal with
             | H : _ = _ |- _ => rewrite H
             end; run; try (split; reflexivity).
    destruct (fs_fault e (fs_writes s)); run; split; reflexivity.
  - split; reflexivity.
  - run_env. destruct (fs_fault e (fs_writes s)); run; split; reflexivity.
  - split; reflexivity.
Qed.

(** C6. When the disk write of a history append fails, the failure is logged
    on the console and swallowed: the appended record stays in memory, the
    caller gets the same success response as with a working disk (no error
    status, no error body); for any request at all, neither the response nor
    the in-memory history depends on whether the disk fails. *)
Theorem write_failure_is_swallowed (e : Env) (s : State) :
  (forall r,
     out (handle e r s) = out (handle (sound_disk e) r s)
     /\ history (handle e r s) = history (handle (sound_disk e) r s))
  /\ (forall body p reply msg,
        body_prompt body = Str p ->
        p <> [] ->
        upstream_returns e s p reply ->
        fs_fault e (fs_writes s) = Some msg ->
        let s' := handle e (PostAi (Some body)) s in
        history s' = history s ++
                     [ai_record (wall_clock e (clock_reads s)) p reply
                                (wall_clock e (S (clock_reads s)))]
        /\ out s' = [SendJson (JObj [("reply"%string, JStr reply)])]
        /\ out s' = out (handle (sound_disk e) (PostAi (Some body)) s)
        /\ console s' = console s ++ [lit "Failed to save history: " ++ msg]).
Proof.
  split; [intros r; apply disk_fault_invisible |].
  intros body p reply msg Hb Hp Hup Hfault s'.
  assert (Hsame : out s' = out (handle (sound_disk e) (PostAi (Some body)) s))
    by apply disk_fault_invisible.
  split; [| split; [| split; [exact Hsame |]]]; subst s'; clear Hsame;
    (destruct p as [| c p]; [congruence |]);
    run; unfold field_or; rewrite Hb; cbn [truthy String_ is_empty negb];
    groq_returns Hup; rewrite Hfault; reflexivity.
Qed.

Lemma write_failure_is_swallowed_witness :
  body_prompt Demo.body = Str Demo.prompt
  /\ Demo.prompt <> []
  /\ upstream_returns Demo.env_disk_full Demo.start Demo.prompt Demo.reply
  /\ fs_fault Demo.env_disk_full (fs_writes Demo.start)
     = Some (lit "ENOSPC: no space left on device, write")
  /\ out (handle Demo.env_disk_full (PostAi (Some Demo.body)) Demo.start)
     = [SendJson (JObj [("reply"%string, JStr Demo.reply)])]
  /\ console (handle Demo.env_disk_full (PostAi (Some Demo.body)) Demo.start)
     = [lit "Failed to save history: " ++ lit "ENOSPC: no space left on device, write"]
  /\ List.length (history (handle Demo.env_disk_full (PostAi (Some Demo.body)) Demo.start)) = 1.
Proof.
  assert (Hp : Demo.prompt <> []) by discriminate.
  assert (Hup : upstream_returns Demo.env_disk_full Demo.start Demo.prompt Demo.reply)
    by reflexivity.
  destruct (write_failure_is_swallowed Demo.env_disk_full Demo.start) as (_ & H).
  destruct (H Demo.body Demo.prompt Demo.reply _ eq_refl Hp Hup eq_refl)
    as (Hh & Ho & _ & Hc).
  split; [reflexivity | split; [exact Hp | split; [exact Hup | split; [reflexivity |]]]].
  split; [exact Ho | split; [exact Hc |]].
  rewrite Hh. reflexivity.
Defined.

(** Every handler that writes the history file does so once, with the
    history it leaves in memory. *)
Lemma saved_document (e : Env) (r : Request) (s : State) :
  fs_fault e (fs_writes s) = None ->
  fs_writes (handle e r s) <> fs_writes s ->
  disk (handle e r s) = Some (JArr (history (handle e r s))).
Proof.
  intros Hok.
  destruct r as [body | q | q | body | | |]; run.
  - destruct (is_empty (field_or body body_prompt [])); run;
      [intros Hw; congruence |].
    groq_cases e s; run; try (intros Hw; congruence).
    rewrite Hok. reflexivity.
  - destruct (is_empty match q with Some p => p | None => [] end); run;
      [intros Hw; congruence |].
    groq_cases e s; run; try (intros Hw; congruence).
    rewrite Hok. run. rewrite stream_loop_run. reflexivity.
  - destruct (is_empty match q with Some u => u | None => [] end); run;
      [intros Hw; congruence |].
    destruct (video_id _) as [[| c v] |]; run; intros Hw; congruence.
  - destruct (is_empty (field_or body body_text [])); run;
      [intros Hw; congruence |].
    groq_cases e s; run; try (intros Hw; congruence).
    rewrite Hok. reflexivity.
  - intros Hw; congruence.
  - rewrite Hok. reflexivity.
  - intros Hw; congruence.
Qed.

(** C5. After a save that succeeds, the document on disk is the in-memory
    list: this holds for [saveHistory] itself and for every handler that
    saves.  In particular [POST /history/clear] empties the list, a
    [GET /history] that follows answers with the empty sequence, and, the
    save having succeeded, the persisted document is the empty array. *)
Theorem saved_history_matches_memory (e : Env) (s : State) :
  (fs_fault e (fs_writes s) = None ->
     history (snd (saveHistory e s)) = history s
     /\ disk (snd (saveHistory e s)) = Some (JArr (history s)))
  /\ (forall r,
        fs_fault e (fs_writes s) = None ->
        fs_writes (handle e r s) <> fs_writes s ->
        disk (handle e r s) = Some (JArr (history (handle e r s))))
  /\ (let s1 := handle e PostHistoryClear s in
      let s2 := handle e GetHistory s1 in
      history s1 = []
      /\ out s1 = [SendJson (JObj [("ok"%string, JBool true)])]
      /\ out s2 = [SendJson (JArr [])]
      /\ (fs_fault e (fs_writes s) = None ->
          disk s1 = Some (JArr []) /\ disk s2 = Some (JArr []))).
Proof.
  split; [| split].
  - intros Hok. run. rewrite Hok. split; reflexivity.
  - intros r. apply saved_document.
  - run. destruct (fs_fault e (fs_writes s)) eqn:Hf; run.
    + repeat split; try reflexivity; discriminate.
    + repeat split; reflexivity.
Qed.

Lemma saved_history_matches_memory_witness :
  fs_fault Demo.env (fs_writes Demo.start) = None
  /\ fs_writes (handle Demo.env (PostAi (Some Demo.body)) Demo.start)
     <> fs_writes Demo.start
  /\ disk (handle Demo.env (PostAi (Some Demo.body)) Demo.start)
     = Some (JArr (history (handle Demo.env (PostAi (Some Demo.body)) Demo.start)))
  /\ disk (handle Demo.env GetHistory (handle Demo.env PostHistoryClear Demo.start))
     = Some (JArr [])
  /\ out (handle Demo.env GetHistory (handle Demo.env PostHistoryClear Demo.start))
     = [SendJson (JArr [])].
Proof.
  assert (Hw : fs_writes (handle Demo.env (PostAi (Some Demo.body)) Demo.start)
               <> fs_writes Demo.start) by discriminate.
  destruct (saved_history_matches_memory Demo.env Demo.start) as (_ & Hsave & Hclear).
  destruct Hclear as (_ & _ & Hout & Hdisk).
  destruct (Hdisk eq_refl) as (_ & Hd2).
  split; [reflexivity | split; [exact Hw | split; [| split; [exact Hd2 | exact Hout]]]].
  apply (Hsave (PostAi (Some Demo.body)) eq_refl Hw).
Defined.

(* ===================================================================== *)
(** * The transcript stub *)
(* ===================================================================== *)

(** The transcript handler answers from the address alone. *)
Lemma transcript_run (e : Env) (s : State) (u : jsstring) :
  u <> [] ->
  handle e (GetYtTranscript (Some u)) s =
  set_out [SendJson (error_body match video_id (parse_URL e u) with
                                | Some (_ :: _) => stub_guidance
                                | _ => no_video_id
                                end)] s.
Proof.
  intros Hu. destruct u as [| c u]; [congruence |].
  run. cbn [is_empty].
  destruct (video_id (parse_URL e (c :: u))) as [[| x v] |]; reflexivity.
Qed.

(** C8, as the code has it. [GET /yt/transcript] never fetches anything and
    never answers with a transcript; every answer is one of three fixed error
    objects.  A missing or empty address is answered with status 400 and
    [url missing].  Otherwise the answer depends on what [new URL] makes of
    the address: when it throws, or when the host contains neither
    [youtube.com] nor [youtu.be], the answer is [Could not parse video id.
    Provide a full YouTube URL.]; when the host contains [youtube.com] the
    answer is the stub guidance if the first [v] parameter is a non-empty
    string and the could-not-parse message if it is absent or empty; when
    the host contains [youtu.be] and not [youtube.com] the answer is the stub
    guidance if the path has something after its first character and the
    could-not-parse message if not. *)
Theorem transcript_is_a_stub (e : Env) (s : State) (q : option jsstring) :
  let s' := handle e (GetYtTranscript q) s in
  let answer := fun text : string => [SendJson (JObj [("error"%string, JStr (lit text))])] in
  let stub := answer "Transcript fetching is environment-dependent. Use an external transcript service or provide the text. This endpoint is a stub to show where to implement transcript fetching."%string in
  let unparsed := answer "Could not parse video id. Provide a full YouTube URL."%string in
  let missing := Status 400 :: answer "url missing"%string in
  s' = set_out (out s') s
  /\ net_log s' = net_log s
  /\ (out s' = stub \/ out s' = unparsed \/ out s' = missing)
  /\ stub <> unparsed
  /\ (q = None \/ q = Some [] -> out s' = missing)
  /\ (forall u,
        q = Some u -> u <> [] ->
        match parse_URL e u with
        | None => out s' = unparsed
        | Some url =>
            if includes (lit "youtube.com") (hostname url) then
              match search_get (lit "v") (search url) with
              | Some (_ :: _) => out s' = stub
              | Some [] | None => out s' = unparsed
              end
            else if includes (lit "youtu.be") (hostname url) then
              match pathname url with
              | _ :: _ :: _ => out s' = stub
              | [_] | [] => out s' = unparsed
              end
            else out s' = unparsed
        end)
  /\ (forall name, search_get name [] = None)
  /\ (forall name k v rest,
        search_get name ((k, v) :: rest)
        = if Js.eqb k name then Some v else search_get name rest).
Proof.
  intros s' answer stub unparsed missing.
  assert (Hdiff : stub <> unparsed).
  { subst stub unparsed answer. unfold lit. cbn. discriminate. }
  assert (Hmiss : q = None \/ q = Some [] -> out s' = missing).
  { intros [-> | ->]; reflexivity. }
  assert (Hurl : forall u,
            q = Some u -> u <> [] ->
            out s' = match video_id (parse_URL e u) with
                     | Some (_ :: _) => stub
                     | _ => unparsed
                     end).
  { intros u -> Hu. subst s'. rewrite (transcript_run e s u Hu). cbn [out set_out].
    destruct (video_id (parse_URL e u)) as [[| c v] |]; reflexivity. }
  assert (Hq : q = None \/ q = Some [] \/ exists u, q = Some u /\ u <> []).
  { destruct q as [[| c u] |].
    - right; left; reflexivity.
    - right; right. exists (c :: u). split; [reflexivity | discriminate].
    - left; reflexivity. }
  assert (Hs : s' = set_out (out s') s).
  { destruct Hq as [-> | [-> | (u & -> & Hu)]]; try reflexivity.
    subst s'. rewrite (transcript_run e s u Hu). reflexivity. }
  split; [exact Hs |]. split; [rewrite Hs; reflexivity |]. clear Hs.
  split; [| split; [exact Hdiff | split; [exact Hmiss | split; [| split]]]].
  - destruct Hq as [Hn | [Hn | (u & Hn & Hu)]].
    + right; right. apply Hmiss. left. exact Hn.
    + right; right. apply Hmiss. right. exact Hn.
    + rewrite (Hurl u Hn Hu).
      destruct (video_id (parse_URL e u)) as [[| c v] |];
        [right; left | left | right; left]; reflexivity.
  - intros u Hn Hu. rewrite (Hurl u Hn Hu). unfold video_id.
    destruct (parse_URL e u) as [url |]; [| reflexivity].
    destruct (includes (lit "youtube.com") (hostname url)).
    + destruct (search_get (lit "v") (search url)) as [[| c v] |]; reflexivity.
    + destruct (includes (lit "youtu.be") (hostname url)); [| reflexivity].
      destruct (pathname url) as [| a [| b rest]]; reflexivity.
  - intros name. reflexivity.
  - intros name k v rest. reflexivity.
Qed.

Lemma transcript_is_a_stub_witness :
  (Demo.watch_url <> []
   /\ includes (lit "youtube.com") (lit "www.youtube.com") = true
   /\ search_get (lit "v") [(lit "v", lit "dQw4w9WgXcQ")] = Some (lit "dQw4w9WgXcQ")
   /\ out (handle Demo.env (GetYtTranscript (Some Demo.watch_url)) Demo.start)
      = [SendJson (JObj [("error"%string, JStr (lit "Transcript fetching is environment-dependent. Use an external transcript service or provide the text. This endpoint is a stub to show where to implement transcript fetching."))])])
  /\ (Demo.embed_url <> []
      /\ search_get (lit "v") [] = None
      /\ out (handle Demo.env (GetYtTranscript (Some Demo.embed_url)) Demo.start)
         = [SendJson (JObj [("error"%string,
                             JStr (lit "Could not parse video id. Provide a full YouTube URL."))])])
  /\ (Demo.short_url <> []
      /\ includes (lit "youtube.com") (lit "youtu.be") = false
      /\ includes (lit "youtu.be") (lit "youtu.be") = true
      /\ out (handle Demo.env (GetYtTranscript (Some Demo.short_url)) Demo.start)
         = [SendJson (JObj [("error"%string, JStr (lit "Transcript fetching is environment-dependent. Use an external transcript service or provide the text. This endpoint is a stub to show where to implement transcript fetching."))])])
  /\ (lit "not a url" <> []
      /\ parse_URL Demo.env (lit "not a url") = None
      /\ out (handle Demo.env (GetYtTranscript (Some (lit "not a url"))) Demo.start)
         = [SendJson (JObj [("error"%string,
                             JStr (lit "Could not parse video id. Provide a full YouTube URL."))])])
  /\ out (handle Demo.env (GetYtTranscript None) Demo.start)
     = [Status 400; SendJson (JObj [("error"%string, JStr (lit "url missing"))])].
Proof.
  assert (Hw : Demo.watch_url <> []) by discriminate.
  assert (He : Demo.embed_url <> []) by discriminate.
  assert (Hs : Demo.short_url <> []) by discriminate.
  assert (Hn : lit "not a url" <> []) by discriminate.
  destruct (transcript_is_a_stub Demo.env Demo.start (Some Demo.watch_url))
    as (_ & _ & _ & _ & _ & Hwatch & _).
  destruct (transcript_is_a_stub Demo.env Demo.start (Some Demo.embed_url))
    as (_ & _ & _ & _ & _ & Hembed & _).
  destruct (transcript_is_a_stub Demo.env Demo.start (Some Demo.short_url))
    as (_ & _ & _ & _ & _ & Hshort & _).
  destruct (transcript_is_a_stub Demo.env Demo.start (Some (lit "not a url")))
    as (_ & _ & _ & _ & _ & Hnot & _).
  destruct (transcript_is_a_stub Demo.env Demo.start None)
    as (_ & _ & _ & _ & Hmissing & _).
  split; [| split; [| split; [| split]]].
  - split; [exact Hw | split; [reflexivity | split; [reflexivity |]]].
    exact (Hwatch Demo.watch_url eq_refl Hw).
  - split; [exact He | split; [reflexivity |]].
    exact (Hembed Demo.embed_url eq_refl He).
  - split; [exact Hs | split; [reflexivity | split; [reflexivity |]]].
    exact (Hshort Demo.short_url eq_refl Hs).
  - split; [exact Hn | split; [reflexivity |]].
    exact (Hnot (lit "not a url") eq_refl Hn).
  - apply Hmissing. left. reflexivity.
Defined.

(** C8 as stated fails: the embed address of a video is a well-formed YouTube
    address, and the handler answers it with the "Could not parse video id"
    message, not with the stub guidance. *)
Lemma transcript_embed_url_not_stub :
  parse_URL Demo.env Demo.embed_url
  = Some {| hostname := lit "www.youtube.com"; pathname := lit "/embed/dQw4w9WgXcQ";
            search := [] |}
  /\ out (handle Demo.env (GetYtTranscript (Some Demo.embed_url)) Demo.start)
     = [SendJson (error_body no_video_id)]
  /\ out (handle Demo.env (GetYtTranscript (Some Demo.embed_url)) Demo.start)
     <> [SendJson (error_body stub_guidance)].
Proof.
  split; [reflexivity | split; [reflexivity |]].
  vm_compute. discriminate.
Qed.

(* ===================================================================== *)
(** * History records *)
(* ===================================================================== *)

Lemma is_digit_digit (k : nat) (n : Z) : is_digit (digit k n) = true.
Proof.
  unfold is_digit, digit.
  pose proof (Z.mod_pos_bound (n / 10 ^ Z.of_nat k) 10 ltac:(lia)) as Hd.
  apply andb_true_intro. split; apply N.leb_le; lia.
Qed.

(** Whatever the time value, [toISOString] yields a string of the ISO-8601
    shape. *)
Lemma toISOString_iso8601 (t : Z) : iso8601 (toISOString t) = true.
Proof.
  unfold toISOString.
  destruct (civil_from_days (t / 86400000)) as [[y m] d].
  unfold iso8601, time_pat, year_string, pad2, pad3, pad4, pad6, lit.
  destruct ((0 <=? y)%Z && (y <=? 9999)%Z); [| destruct (y <? 0)%Z];
    cbn; rewrite ?is_digit_digit; cbn; rewrite ?orb_true_r; reflexivity.
Qed.

Lemma ids_app (h h' : list JsValue) : ids (h ++ h') = ids h ++ ids h'.
Proof. apply flat_map_app. Qed.

Lemma nondecreasing_snoc (l : list Z) (x : Z) :
  nondecreasing l -> Forall (fun y => (y <= x)%Z) l -> nondecreasing (l ++ [x]).
Proof.
  induction l as [| a l IH]; intros Hl Hb; cbn; [auto |].
  destruct Hl as [Ha Hl]. inversion Hb as [| ? ? Hax Hbl]; subst.
  split; [| apply IH; assumption].
  destruct l as [| b l]; [exact Hax | exact Ha].
Qed.

(** What one request does to the history and to the clock: nothing, a
    clear, or one record appended with two readings of the clock. *)
Lemma handle_history (e : Env) (r : Request) (s : State) :
  let s' := handle e r s in
  (history s' = history s /\ clock_reads s' = clock_reads s)
  \/ (r = PostHistoryClear /\ history s' = [] /\ clock_reads s' = clock_reads s)
  \/ (exists rec,
        history s' = history s ++ [rec]
        /\ clock_reads s' = S (S (clock_reads s))
        /\ get "id" rec = Some (JNum (wall_clock e (clock_reads s)))
        /\ get "ts" rec = Some (JStr (toISOString (wall_clock e (S (clock_reads s)))))
        /\ get "timestamp" rec = None).
Proof.
  intros s'. subst s'.
  destruct r as [body | q | q | body | | |]; run.
  - destruct (is_empty (field_or body body_prompt [])); run; [left; split; reflexivity |].
    groq_cases e s; run; try (left; split; reflexivity).
    right; right. eexists.
    destruct (fs_fault e (fs_writes s)); run; repeat split; reflexivity.
  - destruct (is_empty match q with Some p => p | None => [] end); run;
      [left; split; reflexivity |].
    groq_cases e s; run; try (left; split; reflexivity).
    right; right. eexists.
    destruct (fs_fault e (fs_writes s)); run; rewrite stream_loop_run; run;
      repeat split; reflexivity.
  - destruct (is_empty match q with Some u => u | None => [] end); run;
      [left; split; reflexivity |].
    destruct (video_id _) as [[| c v] |]; left; split; reflexivity.
  - destruct (is_empty (field_or body body_text [])); run; [left; split; reflexivity |].
    groq_cases e s; run; try (left; split; reflexivity).
    right; right. eexists.
    destruct (fs_fault e (fs_writes s)); run; repeat split; reflexivity.
  - left; split; reflexivity.
  - right; left. destruct (fs_fault e (fs_writes s)); run; repeat split; reflexivity.
  - left; split; reflexivity.
Qed.

(** A request that sends a prompt upstream and gets a reply appends a
    record. *)
Lemma handle_appends (e : Env) (r : Request) (s : State) (p reply : jsstring) :
  upstream_prompt r = Some p ->
  upstream_returns e s p reply ->
  exists rec,
    history (handle e r s) = history s ++ [rec]
    /\ get "id" rec = Some (JNum (wall_clock e (clock_reads s)))
    /\ get "reply" rec = Some (JStr reply)
    /\ get "ts" rec = Some (JStr (toISOString (wall_clock e (S (clock_reads s)))))
    /\ get "timestamp" rec = None.
Proof.
  intros Hr Hup.
  destruct r as [body | q | q | body | | |]; cbn [upstream_prompt] in Hr;
    try discriminate Hr; run.
  - destruct (is_empty (field_or body body_prompt [])); [discriminate Hr |].
    injection Hr as <-. groq_returns Hup. eexists.
    destruct (fs_fault e (fs_writes s)); run; repeat split; reflexivity.
  - destruct (is_empty match q with Some p => p | None => [] end); [discriminate Hr |].
    injection Hr as <-. groq_returns Hup. eexists.
    destruct (fs_fault e (fs_writes s)); run; rewrite stream_loop_run; run;
      repeat split; reflexivity.
  - destruct (is_empty (field_or body body_text [])); [discriminate Hr |].
    injection Hr as <-. groq_returns Hup. eexists.
    destruct (fs_fault e (fs_writes s)); run; repeat split; reflexivity.
Qed.

Section MonotoneIds.

Variable e : Env.
Hypothesis clock : monotone_clock e.

Lemma ids_in_order_handle (r : Request) (s : State) :
  ids_in_order e s -> ids_in_order e (handle e r s).
Proof.
  intros [Hs Hb]. unfold ids_in_order.
  destruct (handle_history e r s)
    as [(Hh & Hc) | [(_ & Hh & Hc) | (rec & Hh & Hc & Hid & _)]];
    rewrite Hh, Hc.
  - split; assumption.
  - split; [exact I | constructor].
  - rewrite ids_app. cbn [ids flat_map]. rewrite Hid, app_nil_r.
    split.
    + apply nondecreasing_snoc; assumption.
    + apply Forall_app. split.
      * eapply Forall_impl; [| exact Hb]. cbn. intros x Hx.
        pose proof (clock (clock_reads s) (S (S (clock_reads s))) ltac:(lia)). lia.
      * constructor; [| constructor].
        apply clock. lia.
Qed.

Lemma ids_in_order_serve (rs : list Request) (s : State) :
  ids_in_order e s -> ids_in_order e (serve e rs s).
Proof.
  revert s. induction rs as [| r rs IH]; intros s Hs; [exact Hs |].
  cbn [serve fold_left]. apply IH, ids_in_order_handle, Hs.
Qed.

End MonotoneIds.

(** C7, as the code has it. Every record a handler creates after a successful
    upstream call carries an integer [id] read from the clock at creation
    and a field named [ts] (there is no field named [timestamp]) holding the
    ISO-8601 rendering of a second reading of the clock; a later request
    leaves the records in the log as they are, unless it clears the log;
    and, as long as the clock does not run backwards, the ids of the records
    created by handlers are non-decreasing in insertion order. *)
Theorem history_records (e : Env) :
  (forall r s p reply,
     upstream_prompt r = Some p ->
     upstream_returns e s p reply ->
     exists rec,
       history (handle e r s) = history s ++ [rec]
       /\ get "id" rec = Some (JNum (wall_clock e (clock_reads s)))
       /\ get "ts" rec = Some (JStr (toISOString (wall_clock e (S (clock_reads s)))))
       /\ iso8601 (toISOString (wall_clock e (S (clock_reads s)))) = true
       /\ get "timestamp" rec = None)
  /\ (forall r s,
        history (handle e r s) = history s
        \/ (r = PostHistoryClear /\ history (handle e r s) = [])
        \/ exists rec, history (handle e r s) = history s ++ [rec])
  /\ (monotone_clock e ->
      forall rs s,
        history s = [] ->
        nondecreasing (ids (history (serve e rs s)))).
Proof.
  split; [| split].
  - intros r s p reply Hr Hup.
    destruct (handle_appends e r s p reply Hr Hup) as (rec & Hh & Hid & _ & Hts & Hno).
    exists rec.
    split; [exact Hh | split; [exact Hid | split; [exact Hts | split; [| exact Hno]]]].
    apply toISOString_iso8601.
  - intros r s.
    destruct (handle_history e r s)
      as [(Hh & _) | [(Hr & Hh & _) | (rec & Hh & _)]].
    + left. exact Hh.
    + right; left. split; assumption.
    + right; right. exists rec. exact Hh.
  - intros Hclock rs s Hempty.
    apply (ids_in_order_serve e Hclock rs s).
    unfold ids_in_order. rewrite Hempty. split; [exact I | constructor].
Qed.

Lemma demo_clock_monotone : monotone_clock Demo.env.
Proof.
  intros i j Hij.
  change (1700000000000 + Z.of_nat i <= 1700000000000 + Z.of_nat j)%Z.
  lia.
Defined.

Lemma history_records_witness :
  upstream_prompt (PostAi (Some Demo.body)) = Some Demo.prompt
  /\ upstream_returns Demo.env Demo.start Demo.prompt Demo.reply
  /\ (exists rec,
        history (handle Demo.env (PostAi (Some Demo.body)) Demo.start) = [rec]
        /\ get "id" rec = Some (JNum 1700000000000)
        /\ get "ts" rec = Some (JStr (lit "2023-11-14T22:13:20.001Z")))
  /\ monotone_clock Demo.env
  /\ history Demo.start = []
  /\ nondecreasing (ids (history (serve Demo.env Demo.session Demo.start))).
Proof.
  assert (Hup : upstream_returns Demo.env Demo.start Demo.prompt Demo.reply)
    by reflexivity.
  destruct (history_records Demo.env) as (Hnew & _ & Hmono).
  destruct (Hnew (PostAi (Some Demo.body)) Demo.start Demo.prompt Demo.reply eq_refl Hup)
    as (rec & Hh & Hid & Hts & _).
  split; [reflexivity | split; [exact Hup | split; [| split; [| split]]]].
  - exists rec. split; [exact Hh | split; [exact Hid | exact Hts]].
  - exact demo_clock_monotone.
  - reflexivity.
  - apply (Hmono demo_clock_monotone Demo.session Demo.start eq_refl).
Defined.

(** C7 as stated fails on the name of the field: the record that [POST /ai]
    appends has a field [ts] and no field [timestamp]. *)
Lemma record_has_no_timestamp_field :
  history (handle Demo.env (PostAi (Some Demo.body)) Demo.start)
  = [ai_record 1700000000000 Demo.prompt Demo.reply 1700000000001]
  /\ get "timestamp" (ai_record 1700000000000 Demo.prompt Demo.reply 1700000000001) = None
  /\ get "ts" (ai_record 1700000000000 Demo.prompt Demo.reply 1700000000001)
     = Some (JStr (lit "2023-11-14T22:13:20.001Z")).
Proof. split; [| split]; reflexivity. Qed.

(** The runtime model agrees with the dates one can check by hand. *)
Example toISOString_epoch : toISOString 0 = lit "1970-01-01T00:00:00.000Z".
Proof. reflexivity. Qed.

Example toISOString_leap_day : toISOString 1709208000000 = lit "2024-02-29T12:00:00.000Z".
Proof. reflexivity. Qed.

Example toISOString_before_epoch : toISOString (-1) = lit "1969-12-31T23:59:59.999Z".
Proof. reflexivity. Qed.

Example toISOString_year_10000 :
  toISOString 253402300800000 = lit "+010000-01-01T00:00:00.000Z".
Proof. reflexivity. Qed.


(* ===================================================================== *)
(** * Further properties of the handlers *)
(* ===================================================================== *)

(** Splits on the validation test of the handler under analysis. *)
Ltac split_input :=
  match goal with
  | |- context [is_empty (field_or ?b ?f ?d)] =>
      destruct (is_empty (field_or b f d)) eqn:?
  | |- context [is_empty match ?q with Some _ => _ | None => _ end] =>
      destruct (is_empty match q with Some x => x | None => [] end) eqn:?
  end; run.

(** What one request does to the history file and to what goes with it. *)
Lemma handle_storage (e : Env) (r : Request) (s : State) :
  let s' := handle e r s in
  (history s' = history s /\ disk s' = disk s /\ fs_writes s' = fs_writes s
   /\ console s' = console s /\ clock_reads s' = clock_reads s)
  \/ (fs_writes s' = S (fs_writes s)
      /\ ((r = PostHistoryClear /\ history s' = [])
          \/ exists rec, history s' = history s ++ [rec])
      /\ match fs_fault e (fs_writes s) with
         | None => disk s' = Some (JArr (history s')) /\ console s' = console s
         | Some msg =>
             console s' = console s ++ [lit "Failed to save history: " ++ msg]
         end).
Proof.
  intros s'. subst s'.
  destruct r as [body | q | q | body | | |]; run.
  - split_input; [left; repeat split; reflexivity |].
    groq_cases e s; run; try (left; repeat split; reflexivity).
    right. destruct (fs_fault e (fs_writes s)); run;
      (split; [reflexivity | split; [right; eexists; reflexivity | try split; reflexivity]]).
  - split_input; [left; repeat split; reflexivity |].
    groq_cases e s; run; try (left; repeat split; reflexivity).
    right. destruct (fs_fault e (fs_writes s)); run; rewrite stream_loop_run; run;
      (split; [reflexivity | split; [right; eexists; reflexivity | try split; reflexivity]]).
  - split_input; [left; repeat split; reflexivity |].
    destruct (video_id _) as [[| c v] |]; left; repeat split; reflexivity.
  - split_input; [left; repeat split; reflexivity |].
    groq_cases e s; run; try (left; repeat split; reflexivity).
    right. destruct (fs_fault e (fs_writes s)); run;
      (split; [reflexivity | split; [right; eexists; reflexivity | try split; reflexivity]]).
  - left; repeat split; reflexivity.
  - right. destruct (fs_fault e (fs_writes s)); run;
      (split; [reflexivity | split; [left; split; reflexivity | try split; reflexivity]]).
  - left; repeat split; reflexivity.
Qed.

(** X1. A handler writes the history file at most once, and only when it
    has appended a record or cleared the log; otherwise history, file,
    console and clock are left alone.  When it writes, the file takes the
    new history if the write succeeds; if the write throws, one line is
    logged. *)
Theorem disk_written_only_on_mutation (e : Env) (r : Request) (s : State) :
  let s' := handle e r s in
  (history s' = history s /\ disk s' = disk s /\ fs_writes s' = fs_writes s
   /\ console s' = console s /\ clock_reads s' = clock_reads s)
  \/ (fs_writes s' = S (fs_writes s)
      /\ ((r = PostHistoryClear /\ history s' = [])
          \/ exists rec, history s' = history s ++ [rec])
      /\ match fs_fault e (fs_writes s) with
         | None => disk s' = Some (JArr (history s')) /\ console s' = console s
         | Some msg =>
             console s' = console s ++ [lit "Failed to save history: " ++ msg]
         end).
Proof. exact (handle_storage e r s). Qed.

Lemma status_of_app (a b : list Action) (c : nat) :
  fold_left (fun code x => match x with Status k => k | _ => code end) (a ++ b) c =
  fold_left (fun code x => match x with Status k => k | _ => code end) b
    (fold_left (fun code x => match x with Status k => k | _ => code end) a c).
Proof. apply fold_left_app. Qed.

Lemma status_of_fragments (l : list jsstring) (c : nat) :
  fold_left (fun code x => match x with Status k => k | _ => code end)
    (flat_map (fun f => [Write (data_event f); Pause 120]) l) c = c.
Proof. induction l as [| f l IH]; [reflexivity | exact IH]. Qed.

(** The run of a request that fails validation. *)
Lemma rejected_run (e : Env) (r : Request) (s : State) :
  rejected r = true ->
  handle e r s = set_out [Status 400; SendJson (error_body (rejection r))] s.
Proof.
  intros Hr.
  destruct r as [body | q | q | body | | |]; cbn [rejected rejection] in *;
    try discriminate Hr; run; rewrite Hr; reflexivity.
Qed.

(** X2. A request whose required field is missing or empty is answered with
    status 400 and the handler's own message, and nothing else happens: no
    header of the event stream is set, no upstream call is made, the server
    state is as before. *)
Theorem rejected_request_changes_nothing (e : Env) (r : Request) (s : State) :
  rejected r = true ->
  handle e r s = set_out [Status 400; SendJson (error_body (rejection r))] s.
Proof. exact (rejected_run e r s). Qed.

Lemma rejected_request_changes_nothing_witness :
  rejected (GetAiStream None) = true
  /\ handle Demo.env (GetAiStream None) Demo.start
     = set_out [Status 400; SendJson (error_body (lit "Prompt missing"))] Demo.start
  /\ rejected (PostIgCaption (Some Demo.body)) = true
  /\ out (handle Demo.env (PostIgCaption (Some Demo.body)) Demo.start)
     = [Status 400; SendJson (error_body (lit "text missing"))].
Proof.
  split; [reflexivity | split; [| split; [reflexivity |]]].
  - apply (rejected_request_changes_nothing Demo.env (GetAiStream None) Demo.start eq_refl).
  - rewrite (rejected_request_changes_nothing Demo.env (PostIgCaption (Some Demo.body))
               Demo.start eq_refl).
    reflexivity.
Defined.

(** A request passes validation and calls the upstream client exactly when
    it has an upstream prompt. *)
Lemma upstream_prompt_some (r : Request) (p : jsstring) :
  upstream_prompt r = Some p ->
  rejected r = false
  /\ (exists body, r = PostAi body \/ r = PostIgCaption body)
     \/ (rejected r = false /\ exists q, r = GetAiStream q).
Proof.
  destruct r as [body | q | q | body | | |]; cbn [upstream_prompt rejected];
    try discriminate.
  - destruct (is_empty (field_or body body_prompt [])); [discriminate |].
    intros _. left. split; [reflexivity | exists body; left; reflexivity].
  - destruct (is_empty match q with Some p0 => p0 | None => [] end); [discriminate |].
    intros _. right. split; [reflexivity | exists q; reflexivity].
  - destruct (is_empty (field_or body body_text [])); [discriminate |].
    intros _. left. split; [reflexivity | exists body; right; reflexivity].
Qed.

(** The run of a request whose upstream call threw. *)
Lemma upstream_throws_run
    (e : Env) (r : Request) (s : State) (p msg : jsstring) :
  upstream_prompt r = Some p ->
  upstream_fails e s p msg ->
  let s' := handle e r s in
  out s' = match r with
           | GetAiStream _ =>
               [SetHeaders sse_headers; FlushHeaders; Write (error_event msg); End]
           | _ => [Status 500; SendJson (error_body msg)]
           end
  /\ status_of (out s') = match r with GetAiStream _ => 200 | _ => 500 end
  /\ history s' = history s /\ disk s' = disk s /\ fs_writes s' = fs_writes s
  /\ console s' = console s /\ clock_reads s' = clock_reads s.
Proof.
  intros Hr Hup s'. subst s'.
  destruct r as [body | q | q | body | | |]; cbn [upstream_prompt] in Hr;
    try discriminate Hr; run.
  - destruct (is_empty (field_or body body_prompt [])); [discriminate Hr |].
    injection Hr as <-. groq_fails Hup; repeat split; reflexivity.
  - destruct (is_empty match q with Some p0 => p0 | None => [] end); [discriminate Hr |].
    injection Hr as <-. groq_fails Hup; repeat split; reflexivity.
  - destruct (is_empty (field_or body body_text [])); [discriminate Hr |].
    injection Hr as <-. groq_fails Hup; repeat split; reflexivity.
Qed.

(** X3. When the upstream client throws an error with message [msg],
    [POST /ai] and [POST /ig/caption] answer with status 500 and the object
    [{error: msg}]; [GET /ai/stream] writes the event [event: error], line
    feed, [data: msg], two line feeds, and ends a response that keeps status
    200; in all three nothing is stored: history, file, write count, console
    and clock are as before. *)
Theorem upstream_failure_stores_nothing
    (e : Env) (r : Request) (s : State) (p msg : jsstring) :
  upstream_prompt r = Some p ->
  upstream_fails e s p msg ->
  let s' := handle e r s in
  out s' = match r with
           | GetAiStream _ =>
               [SetHeaders sse_headers; FlushHeaders;
                Write (lit "event: error" ++ [10%N] ++ lit "data: " ++ msg ++ [10%N; 10%N]);
                End]
           | _ => [Status 500; SendJson (JObj [("error"%string, JStr msg)])]
           end
  /\ status_of (out s') = match r with GetAiStream _ => 200 | _ => 500 end
  /\ history s' = history s /\ disk s' = disk s /\ fs_writes s' = fs_writes s
  /\ console s' = console s /\ clock_reads s' = clock_reads s.
Proof. exact (upstream_throws_run e r s p msg). Qed.

Lemma upstream_failure_stores_nothing_witness :
  upstream_prompt (PostAi (Some Demo.body)) = Some Demo.prompt
  /\ upstream_fails Demo.env_rate_limited Demo.start Demo.prompt
       (lit "Groq API error: rate limit exceeded")
  /\ out (handle Demo.env_rate_limited (PostAi (Some Demo.body)) Demo.start)
     = [Status 500;
        SendJson (JObj [("error"%string, JStr (lit "Groq API error: rate limit exceeded"))])]
  /\ history (handle Demo.env_rate_limited (PostAi (Some Demo.body)) Demo.start) = []
  /\ out (handle Demo.env_rate_limited (GetAiStream (Some Demo.prompt)) Demo.start)
     = [SetHeaders sse_headers; FlushHeaders;
        Write (lit "event: error" ++ [10%N]
                 ++ lit "data: Groq API error: rate limit exceeded" ++ [10%N; 10%N]);
        End]
  /\ status_of (out (handle Demo.env_rate_limited (GetAiStream (Some Demo.prompt)) Demo.start))
     = 200.
Proof.
  assert (Hup : upstream_fails Demo.env_rate_limited Demo.start Demo.prompt
                  (lit "Groq API error: rate limit exceeded"))
    by reflexivity.
  destruct (upstream_failure_stores_nothing Demo.env_rate_limited
              (PostAi (Some Demo.body)) Demo.start Demo.prompt _ eq_refl Hup)
    as (Ho & _ & Hh & _).
  destruct (upstream_failure_stores_nothing Demo.env_rate_limited
              (GetAiStream (Some Demo.prompt)) Demo.start Demo.prompt _ eq_refl Hup)
    as (Hos & Hs & _).
  split; [reflexivity | split; [exact Hup | split; [exact Ho | split; [exact Hh |]]]].
  split; [exact Hos | exact Hs].
Defined.

(** The response of a request whose upstream call returned. *)
Lemma upstream_success_response
    (e : Env) (r : Request) (s : State) (p reply : jsstring) :
  upstream_prompt r = Some p ->
  upstream_returns e s p reply ->
  out (handle e r s) =
  match r with
  | PostAi _ => [SendJson (JObj [("reply"%string, JStr reply)])]
  | PostIgCaption _ => [SendJson (JObj [("caption"%string, JStr reply)])]
  | _ => [SetHeaders sse_headers; FlushHeaders]
           ++ flat_map (fun c => [Write (data_event c); Pause 120])
                (fragments (ceil_div (List.length reply) CHUNK_SIZE) reply 0)
           ++ [Write done_event; End]
  end.
Proof.
  intros Hr Hup.
  destruct r as [body | q | q | body | | |]; cbn [upstream_prompt] in Hr;
    try discriminate Hr; run.
  - destruct (is_empty (field_or body body_prompt [])); [discriminate Hr |].
    injection Hr as <-. groq_returns Hup.
    destruct (fs_fault e (fs_writes s)); reflexivity.
  - destruct (is_empty match q with Some p0 => p0 | None => [] end); [discriminate Hr |].
    injection Hr as <-. groq_returns Hup.
    destruct (fs_fault e (fs_writes s)); run; rewrite stream_loop_run; run;
      rewrite Nat.sub_0_r, <- !app_assoc; reflexivity.
  - destruct (is_empty (field_or body body_text [])); [discriminate Hr |].
    injection Hr as <-. groq_returns Hup.
    destruct (fs_fault e (fs_writes s)); reflexivity.
Qed.

(** The response of the requests that need no upstream call and pass
    validation. *)
Lemma local_response (e : Env) (r : Request) (s : State) :
  rejected r = false ->
  upstream_prompt r = None ->
  exists body, out (handle e r s) = [SendJson body]
               \/ out (handle e r s) = [SendFile ["public"; "index.html"]%string].
Proof.
  intros Hrej Hr.
  destruct r as [body | q | q | body | | |]; cbn [rejected upstream_prompt] in *; run.
  - rewrite Hrej in Hr. discriminate Hr.
  - rewrite Hrej in Hr. discriminate Hr.
  - rewrite Hrej. destruct (video_id _) as [[| c v] |]; eexists; left; reflexivity.
  - rewrite Hrej in Hr. discriminate Hr.
  - eexists; left; reflexivity.
  - destruct (fs_fault e (fs_writes s)); eexists; left; reflexivity.
  - exists JNull; right; reflexivity.
Qed.

(** X4. The status the handlers of the API routes answer with (every route
    but [GET /], whose status is decided by [res.sendFile] and the file
    system): 400 exactly when the required field is missing or empty; 500
    exactly when [POST /ai] or [POST /ig/caption] passed that test and the
    upstream client threw; 200 in every other case, which includes a
    [GET /ai/stream] whose upstream call failed. *)
Theorem status_classification (e : Env) (r : Request) (s : State) :
  r <> GetRoot ->
  let code := status_of (out (handle e r s)) in
  (code = 200 \/ code = 400 \/ code = 500)
  /\ (code = 400 <-> rejected r = true)
  /\ (code = 500 <->
      exists p msg,
        (exists body, r = PostAi body \/ r = PostIgCaption body)
        /\ upstream_prompt r = Some p
        /\ upstream_fails e s p msg).
Proof.
  intros _ code.
  destruct (rejected r) eqn:Hrej.
  { (* rejected *)
    assert (Hc : code = 400).
    { subst code. rewrite (rejected_run e r s Hrej). reflexivity. }
    rewrite Hc. split; [right; left; reflexivity |]. split; [split; reflexivity |].
    split; [discriminate |].
    intros (p & msg & _ & Hp & _).
    destruct (upstream_prompt_some r p Hp) as [(Hn & _) | (Hn & _)]; congruence. }
  destruct (upstream_prompt r) as [p |] eqn:Hp.
  - destruct (fst (callGroq p e s)) as [reply | msg] eqn:Hcall.
    + (* the upstream call returned *)
      assert (Hc : code = 200).
      { subst code. rewrite (upstream_success_response e r s p reply Hp Hcall).
        destruct r; try reflexivity.
        all: unfold status_of; rewrite !status_of_app, status_of_fragments; reflexivity. }
      rewrite Hc. split; [left; reflexivity |]. split; [split; discriminate |].
      split; [discriminate |].
      intros (p' & msg & _ & Hp' & Hf). unfold upstream_fails in Hf. congruence.
    + (* the upstream call threw *)
      destruct (upstream_throws_run e r s p msg Hp Hcall) as (_ & Hs & _).
      fold code in Hs.
      destruct (upstream_prompt_some r p Hp) as [(_ & body & Hb) | (_ & q & Hq)].
      * assert (Hc : code = 500) by (rewrite Hs; destruct Hb; subst r; reflexivity).
        rewrite Hc. split; [right; right; reflexivity |]. split; [split; discriminate |].
        split; [| reflexivity].
        intros _. exists p, msg. split; [exists body; exact Hb | split; [reflexivity | exact Hcall]].
      * assert (Hc : code = 200) by (rewrite Hs; subst r; reflexivity).
        rewrite Hc. split; [left; reflexivity |]. split; [split; discriminate |].
        split; [discriminate |].
        intros (p' & msg' & (b & [Hb | Hb]) & _); subst r; discriminate Hb.
  - (* answered locally *)
    assert (Hc : code = 200).
    { subst code. destruct (local_response e r s Hrej Hp) as (body & [-> | ->]); reflexivity. }
    rewrite Hc. split; [left; reflexivity |]. split; [split; discriminate |].
    split; [discriminate |].
    intros (p & msg & _ & Hp' & _). congruence.
Qed.

Lemma status_classification_witness :
  PostAi (Some Demo.no_prompt) <> GetRoot
  /\ rejected (PostAi (Some Demo.no_prompt)) = true
  /\ status_of (out (handle Demo.env (PostAi (Some Demo.no_prompt)) Demo.start)) = 400
  /\ PostAi (Some Demo.body) <> GetRoot
  /\ status_of (out (handle Demo.env_rate_limited (PostAi (Some Demo.body)) Demo.start)) = 500.
Proof.
  assert (H1 : PostAi (Some Demo.no_prompt) <> GetRoot) by discriminate.
  assert (H2 : PostAi (Some Demo.body) <> GetRoot) by discriminate.
  destruct (status_classification Demo.env (PostAi (Some Demo.no_prompt)) Demo.start H1)
    as (_ & H400 & _).
  destruct (status_classification Demo.env_rate_limited (PostAi (Some Demo.body))
              Demo.start H2) as (_ & _ & H500).
  split; [exact H1 | split; [reflexivity | split; [| split; [exact H2 |]]]].
  - apply H400. reflexivity.
  - apply H500.
    exists Demo.prompt, (lit "Groq API error: " ++ lit "rate limit exceeded").
    split; [exists (Some Demo.body); left; reflexivity | split; reflexivity].
Defined.

(** X5. [POST /ig/caption] with a text sends the upstream client, as its one
    user message, the fixed Indonesian instruction with the tone and the text
    spliced in as they came, the tone being [inspiratif] when the request
    gives none or an empty one; when the call returns it appends the record
    [{id, type: 'ig_caption', text, tone, reply, ts}] and answers with
    [{caption: reply}]. *)
Theorem caption_request (e : Env) (s : State) (body : Body) (text reply : jsstring) :
  body_text body = Str text ->
  text <> [] ->
  let tone := field_or (Some body) body_tone (lit "inspiratif") in
  let instruction :=
    lit "Buatkan caption Instagram singkat dan menarik dalam bahasa Indonesia dengan tone "
      ++ tone ++ lit " berdasarkan teks ini: " ++ text ++ lit ". Sertakan 3 tagar relevan." in
  upstream_returns e s instruction reply ->
  let s' := handle e (PostIgCaption (Some body)) s in
  net_log s' = net_log s ++ [groq_request (GROQ_KEY e) instruction]
  /\ (exists call, net_log s' = net_log s ++ [call]
                   /\ messages (fetch_body call) = [("user"%string, instruction)])
  /\ history s' = history s ++
                  [JObj [("id", JNum (wall_clock e (clock_reads s)));
                         ("type", JStr (lit "ig_caption"));
                         ("text", JStr text);
                         ("tone", JStr tone);
                         ("reply", JStr reply);
                         ("ts", JStr (toISOString (wall_clock e (S (clock_reads s)))))]%string]
  /\ out s' = [SendJson (JObj [("caption"%string, JStr reply)])]
  /\ (body_tone body = Absent \/ body_tone body = Str [] -> tone = lit "inspiratif")
  /\ (forall t, body_tone body = Str t -> t <> [] -> tone = t).
Proof.
  intros Hb Ht tone instruction Hup s'. subst s'.
  change instruction with (caption_prompt tone text) in *.
  assert (Htext : field_or (Some body) body_text [] = text).
  { unfold field_or. rewrite Hb. destruct text; [congruence | reflexivity]. }
  assert (Hlog : net_log (handle e (PostIgCaption (Some body)) s)
                 = net_log s ++ [groq_request (GROQ_KEY e) (caption_prompt tone text)]).
  { run. rewrite Htext, (is_empty_false _ Ht). fold tone. groq_returns Hup.
    destruct (fs_fault e (fs_writes s)); reflexivity. }
  split; [exact Hlog | split; [| split; [| split; [| split]]]].
  - exists (groq_request (GROQ_KEY e) (caption_prompt tone text)).
    split; [exact Hlog | reflexivity].
  - run. rewrite Htext, (is_empty_false _ Ht). fold tone. groq_returns Hup.
    destruct (fs_fault e (fs_writes s)); reflexivity.
  - run. rewrite Htext, (is_empty_false _ Ht). fold tone. groq_returns Hup.
    destruct (fs_fault e (fs_writes s)); reflexivity.
  - intros [Habs | Habs]; subst tone; unfold field_or; rewrite Habs; reflexivity.
  - intros t Hstr Hne. subst tone. unfold field_or. rewrite Hstr.
    destruct t; [congruence | reflexivity].
Qed.

Lemma caption_request_witness :
  body_text Demo.caption = Str (lit "Peluncuran produk baru")
  /\ lit "Peluncuran produk baru" <> []
  /\ upstream_returns Demo.env Demo.start
       (lit "Buatkan caption Instagram singkat dan menarik dalam bahasa Indonesia dengan tone inspiratif berdasarkan teks ini: Peluncuran produk baru. Sertakan 3 tagar relevan.")
       Demo.reply
  /\ out (handle Demo.env (PostIgCaption (Some Demo.caption)) Demo.start)
     = [SendJson (JObj [("caption"%string, JStr Demo.reply)])]
  /\ history (handle Demo.env (PostIgCaption (Some Demo.caption)) Demo.start)
     = [JObj [("id", JNum 1700000000000);
              ("type", JStr (lit "ig_caption"));
              ("text", JStr (lit "Peluncuran produk baru"));
              ("tone", JStr (lit "inspiratif"));
              ("reply", JStr Demo.reply);
              ("ts", JStr (lit "2023-11-14T22:13:20.001Z"))]%string].
Proof.
  assert (Ht : lit "Peluncuran produk baru" <> []) by discriminate.
  assert (Hup : upstream_returns Demo.env Demo.start
                  (lit "Buatkan caption Instagram singkat dan menarik dalam bahasa Indonesia dengan tone inspiratif berdasarkan teks ini: Peluncuran produk baru. Sertakan 3 tagar relevan.")
                  Demo.reply) by reflexivity.
  destruct (caption_request Demo.env Demo.start Demo.caption
              (lit "Peluncuran produk baru") Demo.reply eq_refl Ht Hup)
    as (_ & _ & Hh & Ho & _).
  split; [reflexivity | split; [exact Ht | split; [exact Hup | split; [exact Ho | exact Hh]]]].
Defined.

Lemma fragments_not_terminal (l : list jsstring) :
  forallb (fun a => negb (terminal a))
    (flat_map (fun c => [Write (data_event c); Pause 120]) l) = true.
Proof. induction l as [| c l IH]; [reflexivity | exact IH]. Qed.

(** X6. No handler of the API routes (every route but [GET /], which hands
    the response over to [res.sendFile]) sends its response twice or touches
    it after sending: in every run in which the upstream call settles, by
    resolving or by rejecting, and whether or not the disk write fails, the
    operations the handler performs on its response contain exactly one that
    sends it ([res.json] or [res.end]), and that one is the last.  A [fetch]
    that never settles is not represented: such a request stays
    unanswered. *)
Theorem no_request_answered_twice (e : Env) (r : Request) (s : State) :
  r <> GetRoot ->
  answered_once (out (handle e r s))
  /\ forall path, ~ In (SendFile path) (out (handle e r s)).
Proof.
  intros Hroot.
  assert (Hfile : forall path, ~ In (SendFile path) (out (handle e r s))).
  { intros path.
    destruct (rejected r) eqn:Hrej;
      [rewrite (rejected_run e r s Hrej); cbn;
       intros [H | [H | []]]; discriminate H |].
    destruct (upstream_prompt r) as [p |] eqn:Hp.
    - destruct (fst (callGroq p e s)) as [reply | msg] eqn:Hcall.
      + rewrite (upstream_success_response e r s p reply Hp Hcall).
        destruct r; try (cbn; intros [H | []]; discriminate H).
        all: rewrite !in_app_iff, in_flat_map; cbn;
          intros [[H | [H | []]] | [(c & _ & [H | [H | []]]) | [H | [H | []]]]];
          discriminate H.
      + destruct (upstream_throws_run e r s p msg Hp Hcall) as (Ho & _).
        rewrite Ho. destruct r; cbn;
          try (intros [H | [H | []]]; discriminate H);
          intros [H | [H | [H | [H | []]]]]; discriminate H.
    - destruct r as [body | q | q | body | | |];
        cbn [rejected upstream_prompt] in *;
        try (rewrite Hrej in Hp; discriminate Hp); try congruence; run.
      + rewrite Hrej. destruct (video_id _) as [[| c v] |]; cbn;
          intros [H | []]; discriminate H.
      + cbn. intros [H | []]; discriminate H.
      + destruct (fs_fault e (fs_writes s)); cbn; intros [H | []]; discriminate H. }
  split; [| exact Hfile].
  unfold answered_once.
  destruct (rejected r) eqn:Hrej.
  { rewrite (rejected_run e r s Hrej). cbn [out set_out].
    exists [Status 400], (SendJson (error_body (rejection r))).
    repeat split; reflexivity. }
  destruct (upstream_prompt r) as [p |] eqn:Hp.
  - destruct (fst (callGroq p e s)) as [reply | msg] eqn:Hcall.
    + rewrite (upstream_success_response e r s p reply Hp Hcall).
      destruct r; try (eexists [], _; repeat split; reflexivity).
      all: eexists ([SetHeaders sse_headers; FlushHeaders]
                      ++ flat_map (fun c => [Write (data_event c); Pause 120])
                           (fragments (ceil_div (List.length reply) CHUNK_SIZE) reply 0)
                      ++ [Write done_event]), End;
        split; [rewrite <- !app_assoc; reflexivity | split; [reflexivity |]];
        rewrite !forallb_app, fragments_not_terminal; reflexivity.
    + destruct (upstream_throws_run e r s p msg Hp Hcall) as (Ho & _).
      rewrite Ho.
      destruct r;
        try (exists [Status 500], (SendJson (error_body msg)); repeat split; reflexivity).
      exists [SetHeaders sse_headers; FlushHeaders; Write (error_event msg)], End.
      repeat split; reflexivity.
  - destruct (local_response e r s Hrej Hp) as (body & [-> | ->]);
      eexists [], _; repeat split; reflexivity.
Qed.

Lemma no_request_answered_twice_witness :
  GetAiStream (Some Demo.prompt) <> GetRoot
  /\ answered_once
       (out (handle Demo.env_rate_limited (GetAiStream (Some Demo.prompt)) Demo.start))
  /\ PostHistoryClear <> GetRoot
  /\ answered_once (out (handle Demo.env_disk_full PostHistoryClear Demo.start)).
Proof.
  assert (H1 : GetAiStream (Some Demo.prompt) <> GetRoot) by discriminate.
  assert (H2 : PostHistoryClear <> GetRoot) by discriminate.
  destruct (no_request_answered_twice Demo.env_rate_limited
              (GetAiStream (Some Demo.prompt)) Demo.start H1) as (Ha & _).
  destruct (no_request_answered_twice Demo.env_disk_full PostHistoryClear Demo.start H2)
    as (Hb & _).
  split; [exact H1 | split; [exact Ha | split; [exact H2 | exact Hb]]].
Defined.


(** The call log after a request: one call more, with the prompt of the
    request, when the request passed validation and a key is configured. *)
Lemma handle_net_log (e : Env) (r : Request) (s : State) :
  net_log (handle e r s) =
  match upstream_prompt r with
  | Some p => if is_empty (GROQ_KEY e) then net_log s
              else net_log s ++ [groq_request (GROQ_KEY e) p]
  | None => net_log s
  end.
Proof.
  destruct r as [body | q | q | body | | |]; cbn [upstream_prompt]; run.
  - split_input; [reflexivity |].
    groq_cases e s; run; try reflexivity.
    destruct (fs_fault e (fs_writes s)); reflexivity.
  - split_input; [reflexivity |].
    groq_cases e s; run; try reflexivity.
    destruct (fs_fault e (fs_writes s)); run; rewrite stream_loop_run; reflexivity.
  - split_input; [reflexivity |].
    destruct (video_id _) as [[| c v] |]; reflexivity.
  - split_input; [reflexivity |].
    groq_cases e s; run; try reflexivity.
    destruct (fs_fault e (fs_writes s)); reflexivity.
  - reflexivity.
  - destruct (fs_fault e (fs_writes s)); reflexivity.
  - reflexivity.
Qed.

Lemma groq_request_to_groq (e : Env) (p : jsstring) :
  to_groq e (groq_request (GROQ_KEY e) p).
Proof.
  unfold to_groq. cbn.
  split; [reflexivity | split; [reflexivity | split; [reflexivity | split; [reflexivity |]]]].
  exists p. reflexivity.
Qed.

(** X7. The only network call the server ever makes is the completion call:
    over any sequence of requests the call log grows by at most one call per
    request, never loses a call, and every new call is a POST to the Groq
    completions address carrying the configured key as bearer token, the
    fixed model and one user message; a single request adds its call exactly
    when it passed validation and a key is configured. *)
Theorem only_groq_is_called (e : Env) (rs : list Request) (s : State) :
  (forall r,
     net_log (handle e r s) =
     match upstream_prompt r with
     | Some p => if is_empty (GROQ_KEY e) then net_log s
                 else net_log s ++ [groq_request (GROQ_KEY e) p]
     | None => net_log s
     end)
  /\ exists calls,
       net_log (serve e rs s) = net_log s ++ calls
       /\ List.length calls <= List.length rs
       /\ Forall (to_groq e) calls.
Proof.
  split; [intros r; apply handle_net_log |].
  revert s. induction rs as [| r rs IH]; intros s.
  - exists []. rewrite app_nil_r. repeat split; [reflexivity | constructor].
  - cbn [serve fold_left].
    destruct (IH (handle e r s)) as (calls & Hlog & Hlen & Hall).
    fold (serve e rs (handle e r s)). rewrite Hlog, handle_net_log.
    destruct (upstream_prompt r) as [p |]; [destruct (is_empty (GROQ_KEY e)) |].
    + exists calls. split; [reflexivity | split; [cbn; lia | exact Hall]].
    + exists (groq_request (GROQ_KEY e) p :: calls).
      split; [rewrite <- app_assoc; reflexivity | split; [cbn; lia |]].
      constructor; [apply groq_request_to_groq | exact Hall].
    + exists calls. split; [reflexivity | split; [cbn; lia | exact Hall]].
Qed.

(** Requests answered without the upstream client, the clear apart, leave
    the server as it was. *)
Lemma local_request_changes_nothing (e : Env) (r : Request) (s : State) :
  upstream_prompt r = None ->
  r <> PostHistoryClear ->
  handle e r s = set_out (out (handle e r s)) s.
Proof.
  intros Hp Hclear.
  destruct (rejected r) eqn:Hrej;
    [rewrite (rejected_run e r s Hrej); reflexivity |].
  destruct r as [body | q | q | body | | |]; cbn [rejected upstream_prompt] in *;
    try (rewrite Hrej in Hp; discriminate Hp); try congruence; run.
  - rewrite Hrej. destruct (video_id _) as [[| c v] |]; reflexivity.
  - reflexivity.
  - reflexivity.
Qed.

(** What one request does to the history, by what happened upstream. *)
Lemma history_after (e : Env) (r : Request) (s : State) :
  (r = PostHistoryClear /\ history (handle e r s) = [])
  \/ (history (handle e r s) = history s
      /\ (upstream_prompt r = None
          \/ exists p msg, upstream_prompt r = Some p /\ upstream_fails e s p msg))
  \/ (exists p reply rec,
        upstream_prompt r = Some p /\ upstream_returns e s p reply
        /\ get "reply" rec = Some (JStr reply)
        /\ history (handle e r s) = history s ++ [rec]).
Proof.
  destruct (upstream_prompt r) as [p |] eqn:Hp.
  - destruct (fst (callGroq p e s)) as [reply | msg] eqn:Hcall.
    + right; right.
      destruct (handle_appends e r s p reply Hp Hcall) as (rec & Hh & _ & Hre & _).
      exists p, reply, rec. repeat split; assumption.
    + right; left.
      destruct (upstream_throws_run e r s p msg Hp Hcall) as (_ & _ & Hh & _).
      split; [exact Hh | right; exists p, msg; split; [reflexivity | exact Hcall]].
  - destruct r as [body | q | q | body | | |];
      try (right; left; split; [| left; reflexivity];
           match goal with
           | |- history (handle ?e ?r ?s) = _ =>
               rewrite (local_request_changes_nothing e r s Hp ltac:(discriminate))
           end; reflexivity).
    left. split; [reflexivity |]. run. destruct (fs_fault e (fs_writes s)); reflexivity.
Qed.

(** X8. Without a configured key the server never calls the upstream and
    never records anything: over any sequence of requests the call log stays
    as it was and the history does not grow, and every request that passed
    validation is answered with the message [GROQ_KEY not set on server], as
    [{error: ...}] with status 500 by [POST /ai] and [POST /ig/caption], as
    the data of an [event: error] event by [GET /ai/stream]. *)
Theorem no_key_no_call (e : Env) (rs : list Request) (s : State) :
  GROQ_KEY e = [] ->
  net_log (serve e rs s) = net_log s
  /\ List.length (history (serve e rs s)) <= List.length (history s)
  /\ (forall r p,
        upstream_prompt r = Some p ->
        out (handle e r s) =
        match r with
        | GetAiStream _ =>
            [SetHeaders sse_headers; FlushHeaders;
             Write (lit "event: error" ++ [10%N]
                      ++ lit "data: GROQ_KEY not set on server" ++ [10%N; 10%N]);
             End]
        | _ => [Status 500;
                SendJson (JObj [("error"%string, JStr (lit "GROQ_KEY not set on server"))])]
        end).
Proof.
  intros Hkey.
  assert (Hfail : forall s0 p, upstream_fails e s0 p (lit "GROQ_KEY not set on server")).
  { intros s0 p. unfold upstream_fails. rewrite callGroq_run, Hkey. reflexivity. }
  split; [| split].
  - revert s. induction rs as [| r rs IH]; intros s; [reflexivity |].
    cbn [serve fold_left]. fold (serve e rs (handle e r s)).
    rewrite IH, handle_net_log, Hkey. destruct (upstream_prompt r); reflexivity.
  - revert s. induction rs as [| r rs IH]; intros s; [reflexivity |].
    cbn [serve fold_left]. fold (serve e rs (handle e r s)).
    etransitivity; [apply IH |].
    destruct (history_after e r s)
      as [(_ & Hh) | [(Hh & _) | (p & reply & rec & _ & Hup & _)]].
    + rewrite Hh. cbn. lia.
    + rewrite Hh. lia.
    + unfold upstream_returns in Hup. rewrite (Hfail s p) in Hup. discriminate Hup.
  - intros r p Hp.
    destruct (upstream_throws_run e r s p _ Hp (Hfail s p)) as (Ho & _).
    exact Ho.
Qed.

Lemma no_key_no_call_witness :
  GROQ_KEY Demo.env_no_key = []
  /\ net_log (serve Demo.env_no_key Demo.session Demo.start) = []
  /\ history (serve Demo.env_no_key Demo.session Demo.start) = []
  /\ out (handle Demo.env_no_key (PostAi (Some Demo.body)) Demo.start)
     = [Status 500;
        SendJson (JObj [("error"%string, JStr (lit "GROQ_KEY not set on server"))])]
  /\ out (handle Demo.env_no_key (GetAiStream (Some Demo.prompt)) Demo.start)
     = [SetHeaders sse_headers; FlushHeaders;
        Write (lit "event: error" ++ [10%N]
                 ++ lit "data: GROQ_KEY not set on server" ++ [10%N; 10%N]);
        End].
Proof.
  destruct (no_key_no_call Demo.env_no_key Demo.session Demo.start eq_refl)
    as (Hn & Hh & Ho).
  split; [reflexivity | split; [exact Hn | split; [| split]]].
  - destruct (history (serve Demo.env_no_key Demo.session Demo.start)) as [| x l];
      [reflexivity | cbn in Hh; lia].
  - apply (Ho (PostAi (Some Demo.body)) Demo.prompt eq_refl).
  - apply (Ho (GetAiStream (Some Demo.prompt)) Demo.prompt eq_refl).
Defined.

(* ===================================================================== *)
(** * Restarting on the history file *)
(* ===================================================================== *)

Lemma mirrors_handle (e : Env) (r : Request) (s : State) :
  disk_works e -> mirrors s -> mirrors (handle e r s).
Proof.
  intros Hdisk Hs. unfold mirrors in *.
  destruct (handle_storage e r s)
    as [(Hh & Hd & _) | (_ & _ & Hsave)].
  - rewrite Hh, Hd. exact Hs.
  - rewrite (Hdisk (fs_writes s)) in Hsave. destruct Hsave as (Hd & _).
    rewrite Hd. reflexivity.
Qed.

(** X9. As long as every write of the history file succeeds, the file keeps
    up with the memory: starting from a state whose file loads to the
    in-memory history (a fresh start without a file is one), after any
    sequence of requests a process restarted on the file loads exactly the
    history the old process had in memory, and logs nothing while loading. *)
Theorem restart_recovers_history (e : Env) (rs : list Request) (s : State) :
  disk_works e ->
  mirrors s ->
  loadHistory (file_on_disk (disk (serve e rs s))) = (JArr (history (serve e rs s)), []).
Proof.
  intros Hdisk Hs.
  assert (Hm : mirrors (serve e rs s)).
  { revert s Hs. induction rs as [| r rs IH]; intros s Hs; [exact Hs |].
    cbn [serve fold_left]. apply IH, mirrors_handle; assumption. }
  unfold mirrors in Hm.
  destruct (disk (serve e rs s)) as [v |]; cbn in *; rewrite Hm; reflexivity.
Qed.

Lemma restart_recovers_history_witness :
  disk_works Demo.env
  /\ mirrors Demo.start
  /\ loadHistory (file_on_disk (disk (serve Demo.env Demo.session Demo.start)))
     = (JArr (history (serve Demo.env Demo.session Demo.start)), [])
  /\ List.length (history (serve Demo.env Demo.session Demo.start)) = 3.
Proof.
  assert (Hd : disk_works Demo.env) by (intros n; reflexivity).
  assert (Hm : mirrors Demo.start) by reflexivity.
  split; [exact Hd | split; [exact Hm | split]].
  - apply (restart_recovers_history Demo.env Demo.session Demo.start Hd Hm).
  - reflexivity.
Defined.

(* ===================================================================== *)
(** * How the operations compose *)
(* ===================================================================== *)

(** X10. A record appended by any of the three upstream handlers is the
    first element of the next [GET /history]: the answer is the new record,
    carrying the reply, followed by the older records newest first. *)
Theorem appended_record_is_listed_first
    (e : Env) (r : Request) (s : State) (p reply : jsstring) :
  upstream_prompt r = Some p ->
  upstream_returns e s p reply ->
  exists rec,
    get "reply" rec = Some (JStr reply)
    /\ history (handle e r s) = history s ++ [rec]
    /\ out (handle e GetHistory (handle e r s))
       = [SendJson (JArr (rec :: rev (history s)))].
Proof.
  intros Hp Hup.
  destruct (handle_appends e r s p reply Hp Hup) as (rec & Hh & _ & Hre & _).
  exists rec. split; [exact Hre | split; [exact Hh |]].
  change (out (handle e GetHistory (handle e r s)))
    with [SendJson (JArr (rev (history (handle e r s))))].
  rewrite Hh, rev_app_distr. reflexivity.
Qed.

Lemma appended_record_is_listed_first_witness :
  upstream_prompt (PostIgCaption (Some Demo.caption))
  = Some (caption_prompt (lit "inspiratif") (lit "Peluncuran produk baru"))
  /\ upstream_returns Demo.env Demo.start
       (caption_prompt (lit "inspiratif") (lit "Peluncuran produk baru")) Demo.reply
  /\ exists rec,
       get "reply" rec = Some (JStr Demo.reply)
       /\ out (handle Demo.env GetHistory
                 (handle Demo.env (PostIgCaption (Some Demo.caption)) Demo.start))
          = [SendJson (JArr [rec])].
Proof.
  assert (Hup : upstream_returns Demo.env Demo.start
                  (caption_prompt (lit "inspiratif") (lit "Peluncuran produk baru"))
                  Demo.reply) by reflexivity.
  destruct (appended_record_is_listed_first Demo.env (PostIgCaption (Some Demo.caption))
              Demo.start _ Demo.reply eq_refl Hup) as (rec & Hre & _ & Ho).
  split; [reflexivity | split; [exact Hup |]].
  exists rec. split; [exact Hre | exact Ho].
Defined.

(** X11. An upstream answer without any completion text is not an error:
    when the response is a success whose document has no first choice,
    [POST /ai] answers 200 with the empty string as reply and still appends a
    record, and [GET /ai/stream] writes no data event and makes no pause,
    only the completion event. *)
Theorem empty_completion_is_a_reply
    (e : Env) (s : State) (body : Body) (p : jsstring) (r : Response) (j : Completion) :
  body_prompt body = Str p ->
  p <> [] ->
  GROQ_KEY e <> [] ->
  upstream e (List.length (net_log s)) = Responded r ->
  ok r = true ->
  json r = Json j ->
  first_choice j = None ->
  out (handle e (PostAi (Some body)) s) = [SendJson (JObj [("reply"%string, JStr [])])]
  /\ (exists rec, history (handle e (PostAi (Some body)) s) = history s ++ [rec]
                  /\ get "reply" rec = Some (JStr []))
  /\ out (handle e (GetAiStream (Some p)) s)
     = [SetHeaders sse_headers; FlushHeaders; Write done_event; End]
  /\ pauses (out (handle e (GetAiStream (Some p)) s)) = [].
Proof.
  intros Hb Hp Hkey Hu Hok Hj Hnone.
  assert (Hup : upstream_returns e s p []).
  { unfold upstream_returns. rewrite callGroq_run, (is_empty_false _ Hkey).
    cbv zeta. rewrite Hu, Hok, Hj. cbn [fst]. f_equal.
    unfold completion_text. rewrite Hnone. reflexivity. }
  assert (Hai : upstream_prompt (PostAi (Some body)) = Some p).
  { cbn [upstream_prompt]. unfold field_or. rewrite Hb.
    destruct p; [congruence | reflexivity]. }
  assert (Hst : upstream_prompt (GetAiStream (Some p)) = Some p).
  { cbn [upstream_prompt]. rewrite (is_empty_false _ Hp). reflexivity. }
  split; [| split; [| split]].
  - apply (upstream_success_response e _ s p [] Hai Hup).
  - destruct (handle_appends e _ s p [] Hai Hup) as (rec & Hh & _ & Hre & _).
    exists rec. split; assumption.
  - rewrite (upstream_success_response e _ s p [] Hst Hup). reflexivity.
  - rewrite (upstream_success_response e _ s p [] Hst Hup). reflexivity.
Qed.

Lemma empty_completion_is_a_reply_witness :
  body_prompt Demo.body = Str Demo.prompt
  /\ Demo.prompt <> []
  /\ GROQ_KEY Demo.env_no_choices <> []
  /\ upstream Demo.env_no_choices (List.length (net_log Demo.start))
     = Responded Demo.no_choices
  /\ first_choice {| choices := None |} = None
  /\ out (handle Demo.env_no_choices (PostAi (Some Demo.body)) Demo.start)
     = [SendJson (JObj [("reply"%string, JStr [])])]
  /\ writes (out (handle Demo.env_no_choices (GetAiStream (Some Demo.prompt)) Demo.start))
     = [done_event].
Proof.
  assert (Hp : Demo.prompt <> []) by discriminate.
  assert (Hk : GROQ_KEY Demo.env_no_choices <> []) by discriminate.
  destruct (empty_completion_is_a_reply Demo.env_no_choices Demo.start Demo.body
              Demo.prompt Demo.no_choices {| choices := None |}
              eq_refl Hp Hk eq_refl eq_refl eq_refl eq_refl)
    as (Ho & _ & Hs & _).
  split; [reflexivity | split; [exact Hp | split; [exact Hk | split; [reflexivity |]]]].
  split; [reflexivity | split; [exact Ho |]].
  rewrite Hs. reflexivity.
Defined.

(** X12. [GET /ai/stream] has exactly the side effects of [POST /ai] with the
    same prompt: same upstream call, same record appended, same write
    of the file, same console; the two runs end in states that differ in the
    response only. *)
Theorem stream_stores_like_post_ai (e : Env) (s : State) (body : Body) (p : jsstring) :
  body_prompt body = Str p ->
  handle e (GetAiStream (Some p)) s
  = set_out (out (handle e (GetAiStream (Some p)) s)) (handle e (PostAi (Some body)) s).
Proof.
  intros Hb. run. unfold field_or. rewrite Hb.
  destruct p as [| c p]; cbn [truthy String_ is_empty negb]; [reflexivity |].
  groq_cases e s; run; try reflexivity.
  destruct (fs_fault e (fs_writes s)); run; rewrite stream_loop_run; reflexivity.
Qed.

Lemma stream_stores_like_post_ai_witness :
  body_prompt Demo.body = Str Demo.prompt
  /\ history (handle Demo.env (GetAiStream (Some Demo.prompt)) Demo.start)
     = history (handle Demo.env (PostAi (Some Demo.body)) Demo.start)
  /\ disk (handle Demo.env (GetAiStream (Some Demo.prompt)) Demo.start)
     = disk (handle Demo.env (PostAi (Some Demo.body)) Demo.start).
Proof.
  pose proof (stream_stores_like_post_ai Demo.env Demo.start Demo.body Demo.prompt eq_refl)
    as H.
  split; [reflexivity | split]; rewrite H; reflexivity.
Defined.

(** X13. The log is append-only between clears: over any sequence of requests
    without a [POST /history/clear], the records present at the start are
    still there, unchanged and in place, followed by at most one new record
    per request. *)
Theorem history_is_append_only (e : Env) (rs : list Request) (s : State) :
  ~ In PostHistoryClear rs ->
  exists added,
    history (serve e rs s) = history s ++ added
    /\ List.length added <= List.length rs.
Proof.
  revert s. induction rs as [| r rs IH]; intros s Hclear.
  - exists []. rewrite app_nil_r. split; [reflexivity | cbn; lia].
  - cbn [serve fold_left]. fold (serve e rs (handle e r s)).
    destruct (IH (handle e r s)) as (added & Hh & Hlen).
    { intros Hin. apply Hclear. right. exact Hin. }
    rewrite Hh.
    destruct (history_after e r s)
      as [(Hr & _) | [(Hs & _) | (p & reply & rec & _ & _ & _ & Hs)]].
    + exfalso. apply Hclear. left. exact Hr.
    + rewrite Hs. exists added. split; [reflexivity | cbn; lia].
    + rewrite Hs, <- app_assoc. exists (rec :: added).
      split; [reflexivity | cbn; lia].
Qed.

Lemma history_is_append_only_witness :
  ~ In PostHistoryClear Demo.session
  /\ exists added,
       history (serve Demo.env Demo.session
                  (handle Demo.env (PostAi (Some Demo.body)) Demo.start))
       = history (handle Demo.env (PostAi (Some Demo.body)) Demo.start) ++ added
       /\ List.length added <= 5.
Proof.
  assert (Hc : ~ In PostHistoryClear Demo.session).
  { cbn. intros [H | [H | [H | [H | [H | []]]]]]; discriminate H. }
  split; [exact Hc |].
  apply (history_is_append_only Demo.env Demo.session
           (handle Demo.env (PostAi (Some Demo.body)) Demo.start) Hc).
Defined.


(* ===================================================================== *)
(** * The chat history kept in the browser *)
(* ===================================================================== *)

Lemma push_capped_last_n (arr : list JsValue) (m : JsValue) :
  Browser.push_capped arr m = Browser.last_n 50 (arr ++ [m]).
Proof.
  unfold Browser.push_capped, Browser.last_n.
  destruct (50 <? List.length (arr ++ [m])) eqn:Hlt; [reflexivity |].
  apply Nat.ltb_ge in Hlt.
  replace (List.length (arr ++ [m]) - 50) with 0 by lia. reflexivity.
Qed.

Lemma last_n_length {A} (n : nat) (l : list A) :
  List.length (Browser.last_n n l) = Nat.min (List.length l) n.
Proof. unfold Browser.last_n. rewrite length_skipn. lia. Qed.

Lemma last_n_app {A} (n : nat) (a b : list A) :
  Browser.last_n n (Browser.last_n n a ++ b) = Browser.last_n n (a ++ b).
Proof.
  unfold Browser.last_n.
  set (k := List.length a - n).
  assert (Hk : k <= List.length a) by (subst k; lia).
  assert (Happ : skipn k a ++ b = skipn k (a ++ b)).
  { rewrite skipn_app. replace (k - List.length a) with 0 by lia. reflexivity. }
  rewrite Happ, skipn_skipn, length_skipn, length_app. f_equal. subst k. lia.
Qed.

Lemma last_n_snoc {A} (n : nat) (l : list A) (x d : A) :
  0 < n -> last (Browser.last_n n (l ++ [x])) d = x.
Proof.
  intros Hn. unfold Browser.last_n. rewrite length_app. cbn [List.length].
  assert (Hk : List.length l + 1 - n <= List.length l) by lia.
  rewrite skipn_app. replace (List.length l + 1 - n - List.length l) with 0 by lia.
  cbn [skipn]. apply last_last.
Qed.

(** The run of a save that goes through. *)
Lemma save_run (role text : jsstring) (now : Z) (p : Browser.Page) (arr : list JsValue) :
  Browser.parse_item (Browser.item p) = inl (JArr arr) ->
  Browser.saveChatMessage role text now None p
  = Browser.set_item
      (Browser.Parsed (JArr (Browser.last_n 50 (arr ++ [Browser.chat_message role text now]))))
      p.
Proof.
  intros Hp. unfold Browser.saveChatMessage. rewrite Hp, push_capped_last_n. reflexivity.
Qed.

(** X14. A [saveChatMessage] that goes through (the stored item is missing,
    empty or an array, and [setItem] does not throw) stores the last 50
    elements of the old array followed by the new message: the new message is
    the last one, at most 50 are kept, the oldest go first, and
    [loadChatHistory] returns that array; nothing is warned about. *)
Theorem chat_history_keeps_last_50
    (role text : jsstring) (now : Z) (p : Browser.Page) (arr : list JsValue) :
  Browser.parse_item (Browser.item p) = inl (JArr arr) ->
  let m := Browser.chat_message role text now in
  let kept := Browser.last_n 50 (arr ++ [m]) in
  let p' := Browser.saveChatMessage role text now None p in
  Browser.loadChatHistory p' = JArr kept
  /\ List.length kept = Nat.min (List.length arr + 1) 50
  /\ last kept JNull = m
  /\ (exists dropped, arr ++ [m] = dropped ++ kept)
  /\ Browser.warnings p' = Browser.warnings p.
Proof.
  intros Hp m kept p'. subst p'. rewrite (save_run role text now p arr Hp).
  split; [reflexivity | split; [| split; [| split; [| reflexivity]]]].
  - subst kept. rewrite last_n_length, length_app. reflexivity.
  - apply last_n_snoc. lia.
  - exists (firstn (List.length (arr ++ [m]) - 50) (arr ++ [m])).
    symmetry. apply firstn_skipn.
Qed.

Lemma chat_history_keeps_last_50_witness :
  Browser.parse_item Browser.NoItem = inl (JArr [])
  /\ Browser.loadChatHistory
       (Browser.saveChatMessage (lit "user") (lit "halo") 1700000000000 None
          {| Browser.item := Browser.NoItem; Browser.speech := None;
             Browser.warnings := [] |})
     = JArr [Browser.chat_message (lit "user") (lit "halo") 1700000000000].
Proof.
  split; [reflexivity |].
  destruct (chat_history_keeps_last_50 (lit "user") (lit "halo") 1700000000000
              {| Browser.item := Browser.NoItem; Browser.speech := None;
                 Browser.warnings := [] |} [] eq_refl) as (H & _).
  exact H.
Defined.

(** X15. Saving a run of messages, none of them refused by the storage, on
    an array of at most 50 elements leaves the last 50 of the old elements
    and the new messages, in the order they were saved: the history is a
    bounded queue that drops from the front. *)
Theorem chat_history_is_a_bounded_queue
    (cs : list Browser.Save) (p : Browser.Page) (arr : list JsValue) :
  Browser.parse_item (Browser.item p) = inl (JArr arr) ->
  List.length arr <= 50 ->
  Forall (fun c => Browser.save_quota c = None) cs ->
  Browser.loadChatHistory (fold_left Browser.save cs p)
  = JArr (Browser.last_n 50 (arr ++ map Browser.message_of cs))
  /\ Browser.warnings (fold_left Browser.save cs p) = Browser.warnings p.
Proof.
  revert p arr. induction cs as [| c cs IH]; intros p arr Hp Hlen Hq.
  - cbn [fold_left map]. rewrite app_nil_r. unfold Browser.loadChatHistory. rewrite Hp.
    unfold Browser.last_n. replace (List.length arr - 50) with 0 by lia.
    split; reflexivity.
  - inversion Hq as [| ? ? Hc Hcs]; subst.
    cbn [fold_left map]. unfold Browser.save at 2 4.
    rewrite Hc, (save_run _ _ _ p arr Hp).
    destruct (IH (Browser.set_item
                    (Browser.Parsed (JArr (Browser.last_n 50
                       (arr ++ [Browser.chat_message (Browser.save_role c)
                                  (Browser.save_text c) (Browser.save_now c)]))))
                    p)
                 (Browser.last_n 50
                    (arr ++ [Browser.chat_message (Browser.save_role c)
                               (Browser.save_text c) (Browser.save_now c)])))
      as (Hload & Hwarn).
    + reflexivity.
    + rewrite last_n_length. lia.
    + exact Hcs.
    + rewrite Hload, Hwarn, last_n_app, <- app_assoc. split; reflexivity.
Qed.


Lemma burst_accepted (n : nat) :
  Forall (fun c => Browser.save_quota c = None) (Browser.burst n).
Proof.
  unfold Browser.burst. apply Forall_forall. intros c Hin.
  apply in_map_iff in Hin. destruct Hin as (i & <- & _). reflexivity.
Qed.

Lemma chat_history_is_a_bounded_queue_witness :
  Browser.parse_item (Browser.item Browser.fresh) = inl (JArr [])
  /\ 0 <= 50
  /\ Forall (fun c => Browser.save_quota c = None) (Browser.burst 52)
  /\ Browser.loadChatHistory (fold_left Browser.save (Browser.burst 52) Browser.fresh)
     = JArr (map Browser.message_of (skipn 2 (Browser.burst 52))).
Proof.
  destruct (chat_history_is_a_bounded_queue (Browser.burst 52) Browser.fresh []
              eq_refl (Nat.le_0_l 50) (burst_accepted 52)) as (H & _).
  split; [reflexivity | split; [apply Nat.le_0_l | split; [apply burst_accepted |]]].
  rewrite H. reflexivity.
Defined.

(** The run of a save that fails. *)
Lemma failed_save_run (role text : jsstring) (now : Z) (quota : option jsstring)
    (p : Browser.Page) :
  Browser.unusable (Browser.item p) \/ (exists msg, quota = Some msg) ->
  exists f, Browser.saveChatMessage role text now quota p
            = Browser.warn (Browser.SaveError f) p.
Proof.
  unfold Browser.saveChatMessage.
  intros [[(msg & Hi) | (v & Hi & Hv)] | (msg & Hq)].
  - rewrite Hi. eexists; reflexivity.
  - rewrite Hi. cbn [Browser.parse_item].
    destruct v; try (eexists; reflexivity). exfalso. eapply Hv. reflexivity.
  - subst quota.
    destruct (Browser.parse_item (Browser.item p)) as [[| | | | arr |] | f];
      eexists; reflexivity.
Qed.

(** X16. A [saveChatMessage] that cannot go through (the stored text does
    not parse, it parses to something that is not an array, or [setItem]
    throws) drops the message: the stored item and what [loadChatHistory]
    returns are as before, and one warning is printed. *)
Theorem failed_save_drops_the_message
    (role text : jsstring) (now : Z) (quota : option jsstring) (p : Browser.Page) :
  Browser.unusable (Browser.item p) \/ (exists msg, quota = Some msg) ->
  let p' := Browser.saveChatMessage role text now quota p in
  Browser.item p' = Browser.item p
  /\ Browser.loadChatHistory p' = Browser.loadChatHistory p
  /\ exists f, Browser.warnings p' = Browser.warnings p ++ [Browser.SaveError f].
Proof.
  intros H p'. subst p'.
  destruct (failed_save_run role text now quota p H) as (f & ->).
  split; [reflexivity | split; [reflexivity | exists f; reflexivity]].
Qed.

Lemma failed_save_drops_the_message_witness :
  (Browser.unusable (Browser.item Browser.fresh)
   \/ exists msg, Some (lit "QuotaExceededError") = Some msg)
  /\ Browser.item (Browser.saveChatMessage (lit "user") (lit "halo") 0
                     (Some (lit "QuotaExceededError")) Browser.fresh)
     = Browser.NoItem.
Proof.
  assert (H : Browser.unusable (Browser.item Browser.fresh)
              \/ exists msg, Some (lit "QuotaExceededError") = Some msg).
  { right. exists (lit "QuotaExceededError"). reflexivity. }
  destruct (failed_save_drops_the_message (lit "user") (lit "halo") 0
              (Some (lit "QuotaExceededError")) Browser.fresh H) as (Hi & _).
  split; [exact H | exact Hi].
Defined.

(** X17. A stored item that is not usable as the array of messages is never
    repaired: whatever is saved afterwards, and however often, the item stays
    as it is, every message is dropped with a warning, and [loadChatHistory]
    keeps returning what it returned before (the empty array for a text that
    does not parse). *)
Theorem unusable_storage_is_never_repaired (cs : list Browser.Save) (p : Browser.Page) :
  Browser.unusable (Browser.item p) ->
  Browser.item (fold_left Browser.save cs p) = Browser.item p
  /\ Browser.loadChatHistory (fold_left Browser.save cs p) = Browser.loadChatHistory p
  /\ List.length (Browser.warnings (fold_left Browser.save cs p))
     = List.length (Browser.warnings p) + List.length cs
  /\ ((exists msg, Browser.item p = Browser.Unparsable msg) ->
      Browser.loadChatHistory (fold_left Browser.save cs p) = JArr []).
Proof.
  intros Hu.
  assert (Hitem : Browser.item (fold_left Browser.save cs p) = Browser.item p
                  /\ List.length (Browser.warnings (fold_left Browser.save cs p))
                     = List.length (Browser.warnings p) + List.length cs).
  { revert p Hu. induction cs as [| c cs IH]; intros p Hu; [cbn; split; [reflexivity | lia] |].
    cbn [fold_left]. unfold Browser.save at 2 4.
    destruct (failed_save_run (Browser.save_role c) (Browser.save_text c)
                (Browser.save_now c) (Browser.save_quota c) p (or_introl Hu)) as (f & ->).
    destruct (IH (Browser.warn (Browser.SaveError f) p) Hu) as (Hi & Hw).
    split; [exact Hi |]. rewrite Hw. cbn [Browser.warnings Browser.warn List.length].
    rewrite length_app. cbn [List.length]. lia. }
  destruct Hitem as (Hi & Hw).
  split; [exact Hi | split; [| split; [exact Hw |]]].
  - unfold Browser.loadChatHistory. rewrite Hi. reflexivity.
  - intros (msg & Hm). unfold Browser.loadChatHistory. rewrite Hi, Hm. reflexivity.
Qed.

Lemma unusable_storage_is_never_repaired_witness :
  Browser.unusable (Browser.Unparsable (lit "Unexpected end of JSON input"))
  /\ Browser.item
       (fold_left Browser.save (Browser.burst 3)
          {| Browser.item := Browser.Unparsable (lit "Unexpected end of JSON input");
             Browser.speech := None; Browser.warnings := [] |})
     = Browser.Unparsable (lit "Unexpected end of JSON input")
  /\ Browser.loadChatHistory
       (fold_left Browser.save (Browser.burst 3)
          {| Browser.item := Browser.Unparsable (lit "Unexpected end of JSON input");
             Browser.speech := None; Browser.warnings := [] |})
     = JArr [].
Proof.
  assert (Hu : Browser.unusable (Browser.Unparsable (lit "Unexpected end of JSON input"))).
  { left. exists (lit "Unexpected end of JSON input"). reflexivity. }
  destruct (unusable_storage_is_never_repaired (Browser.burst 3)
              {| Browser.item := Browser.Unparsable (lit "Unexpected end of JSON input");
                 Browser.speech := None; Browser.warnings := [] |} Hu)
    as (Hi & _ & _ & Hl).
  split; [exact Hu | split; [exact Hi |]].
  apply Hl. exists (lit "Unexpected end of JSON input"). reflexivity.
Defined.

(* ===================================================================== *)
(** * Text to speech *)
(* ===================================================================== *)

(** On a page with speech synthesis, [playTTS] drops whatever was
    queued or being spoken and leaves exactly its own utterance in the queue,
    so of two calls in a row only the second text remains; on a page without
    it nothing is queued and one warning is printed.  The stored chat history
    is not touched either way. *)
Lemma playTTS_replaces_the_queue (text : jsstring) (p : Browser.Page) :
  (forall queue, Browser.speech p = Some queue ->
     Browser.speech (Browser.playTTS text p) = Some [text]
     /\ Browser.warnings (Browser.playTTS text p) = Browser.warnings p
     /\ forall earlier,
          Browser.speech (Browser.playTTS text (Browser.playTTS earlier p)) = Some [text])
  /\ (Browser.speech p = None ->
      Browser.speech (Browser.playTTS text p) = None
      /\ Browser.warnings (Browser.playTTS text p)
         = Browser.warnings p ++ [Browser.TtsNotSupported])
  /\ Browser.item (Browser.playTTS text p) = Browser.item p.
Proof.
  unfold Browser.playTTS. split; [| split].
  - intros queue Hq. rewrite Hq. cbn. repeat split; reflexivity.
  - intros Hq. rewrite Hq. split; [exact Hq | reflexivity].
  - destruct (Browser.speech p); reflexivity.
Qed.

Lemma playTTS_replaces_the_queue_witness :
  Browser.speech Browser.fresh = Some []
  /\ Browser.speech (Browser.playTTS (lit "dua") (Browser.playTTS (lit "satu") Browser.fresh))
     = Some [lit "dua"].
Proof.
  destruct (playTTS_replaces_the_queue (lit "dua") Browser.fresh) as (H & _).
  destruct (H [] eq_refl) as (_ & _ & Hq).
  split; [reflexivity | apply Hq].
Defined.
